(** * wtfis: the entry point [wtfis/main.py]

    A shallow embedding of the orchestration layer of wtfis: client
    selection ([generate_entity_handler]), the progress consumer loop
    ([fetch_data]), view selection ([generate_view]) and the top-level
    sequence ([main]).

    Python exceptions and the mutable objects the entry point touches (the
    rich [Progress] display, the terminal) are modelled by a small
    state-and-exception monad [M]: the world survives a raised exception,
    as it does in Python. *)

From Stdlib Require Import ZArith Lia Ascii String.
From stdpp Require Import base option list gmap strings.

Local Open Scope string_scope.
Local Open Scope list_scope.

(** ** The rich progress display

    [rich.progress.Progress] is a third-party object.  Only the three
    operations used by [main.py] are modelled, following rich's documented
    behaviour: [add_task(description)] appends a task with [total = 100]
    and [completed = 0] and returns its id (ids count up from 0);
    [update(task, advance=n)] adds [n] to [completed];
    [update(task, completed=n)] sets it; both raise [KeyError] for an
    unknown id.  [start]/[stop] switch the live display. *)
Module Rich.

(** Task ids are natural numbers. *)
Abbreviation TaskID := nat.

Record Task := mkTask {
  description : string;
  total : Z;
  completed : Z
}.

Record Progress := mkProgress {
  tasks : list Task;
  live : bool
}.

(** The calls [main.py] makes on the display, as they appear in a trace. *)
Inductive Call :=
| Start
| Stop
| AddTask (descr : string) (id : TaskID)
| UpdateAdvance (task : TaskID) (advance : Z)
| UpdateCompleted (task : TaskID) (completed : Z).

Definition default_total : Z := 100.

Definition add_task (descr : string) (p : Progress) : Progress * TaskID :=
  (mkProgress (tasks p ++ [mkTask descr default_total 0]) (live p),
   length (tasks p)).

Definition update_advance (t : TaskID) (n : Z) (p : Progress) : option Progress :=
  tk ← tasks p !! t;
  Some (mkProgress
          (<[t := mkTask (description tk) (total tk) (completed tk + n)]> (tasks p))
          (live p)).

Definition update_completed (t : TaskID) (n : Z) (p : Progress) : option Progress :=
  tk ← tasks p !! t;
  Some (mkProgress
          (<[t := mkTask (description tk) (total tk) n]> (tasks p))
          (live p)).

Definition start (p : Progress) : Progress := mkProgress (tasks p) true.
Definition stop (p : Progress) : Progress := mkProgress (tasks p) false.

(** A task shows 100% when its counter has reached its total. *)
Definition finished (tk : Task) : bool := (total tk <=? completed tk)%Z.

End Rich.

(** ** Data of the entry point *)

(** Provider payloads are opaque to [main.py]; a string stands for one. *)
Definition Blob := string.

(** [wtfis.config.Config] is not part of the sources at hand; the record
    lists the attributes [main.py] reads, with the types their uses
    require. *)
Record Config := mkConfig {
  entity : string;
  vt_api_key : string;
  ip2whois_api_key : option string;
  use_shodan : bool;
  use_greynoise : bool;
  greynoise_api_key : option string;
  use_abuseipdb : bool;
  abuseipdb_api_key : option string;
  use_urlhaus : bool;
  max_resolutions : Z;
  no_color : bool;
  one_column : bool
}.

Record Console := mkConsole { console_no_color : bool }.

(** The provider clients, one constructor per class, holding what the
    constructor call in [generate_entity_handler] passes. *)
Inductive Client :=
| VTClient (api_key : string)
| IpWhoisClient
| Ip2WhoisClient (api_key : string)
| ShodanClient (api_key : string)
| GreynoiseClient (api_key : option string)
| AbuseIpDbClient (api_key : option string)
| UrlHausClient.

(** [entity.vt_info]: a [Domain] model, an [IpAddress] model, or anything
    else (the attribute before it is fetched). *)
Inductive VtInfo :=
| Domain (data : Blob)
| IpAddress (data : Blob)
| NoVtInfo.

(** The keyword arguments common to both handler constructors. *)
Record HandlerArgs := mkHandlerArgs {
  h_entity : string;
  h_console : Console;
  vt_client : Client;
  ip_geoasn_client : Client;
  whois_client : Client;
  shodan_client : option Client;
  greynoise_client : option Client;
  abuseipdb_client : option Client;
  urlhaus_client : option Client
}.

(** The result fields a handler fills during its fetch pass, and its
    warning list. *)
Record Fetched := mkFetched {
  vt_info : VtInfo;
  geoasn : option Blob;
  whois : option Blob;
  shodan : option Blob;
  greynoise : option Blob;
  abuseipdb : option Blob;
  urlhaus : option Blob;
  warnings : list string
}.

Definition unfetched : Fetched :=
  mkFetched NoVtInfo None None None None None None [].

(** The two handler classes.  Only the domain handler has a bound on, and
    a field for, historical resolutions. *)
Inductive BaseHandler :=
| DomainHandler (args : HandlerArgs) (max_res : Z)
                (got : Fetched) (resolutions : option Blob)
| IpAddressHandler (args : HandlerArgs) (got : Fetched).

Definition handler_args (h : BaseHandler) : HandlerArgs :=
  match h with
  | DomainHandler a _ _ _ => a
  | IpAddressHandler a _ => a
  end.

Definition handler_got (h : BaseHandler) : Fetched :=
  match h with
  | DomainHandler _ _ g _ => g
  | IpAddressHandler _ g => g
  end.

Definition is_domain_handler (h : BaseHandler) : bool :=
  match h with DomainHandler _ _ _ _ => true | IpAddressHandler _ _ => false end.

Definition is_ip_handler (h : BaseHandler) : bool :=
  match h with DomainHandler _ _ _ _ => false | IpAddressHandler _ _ => true end.

Definition handler_max_resolutions (h : BaseHandler) : option Z :=
  match h with
  | DomainHandler _ m _ _ => Some m
  | IpAddressHandler _ _ => None
  end.

(** The two view classes, with the positional arguments of their
    constructor calls in [generate_view]. *)
Inductive BaseView :=
| DomainView (console : Console) (vt : Blob)
             (geoasn whois shodan greynoise abuseipdb urlhaus : option Blob)
             (resolutions : option Blob) (max_res : Z)
| IpAddressView (console : Console) (vt : Blob)
                (geoasn whois shodan greynoise abuseipdb urlhaus : option Blob).

(** What the handler's generator yields: a [(str, int)] tuple, an int, or
    some other object (which the consumer loop ignores). *)
Inductive Yielded :=
| YTuple (descr : string) (adv : Z)
| YInt (n : Z)
| YOther.

(** ** Exceptions, observations, and the monad *)

Inductive ExitStatus := Success | Failure.

Inductive Exn :=
| KeyError (key : string)
| RichKeyError (task : Rich.TaskID)
| HandlerException (msg : string)
| WtfisException (msg : string)
| ProcessExit (status : ExitStatus)
| OtherException (name : string).

(** What a user (or a test double) can observe of a run, in order. *)
Inductive Obs :=
| OProgress (c : Rich.Call)
| OError (msg : string)
| OWarning (msg : string)
| OView (v : BaseView)
| OReport (v : BaseView) (one_col : bool).

Record World := mkWorld {
  prog : Rich.Progress;
  obs : list Obs
}.

Definition M (A : Type) : Type := World -> (Exn + A) * World.

Definition ret {A} (a : A) : M A := fun w => (inr a, w).

Definition bind {A B} (m : M A) (k : A -> M B) : M B :=
  fun w =>
    match m w with
    | (inl e, w') => (inl e, w')
    | (inr a, w') => k a w'
    end.

Definition raise {A} (e : Exn) : M A := fun w => (inl e, w).

(** [try: m except e: h e]; [h] returns [None] for the exceptions the
    clause does not match, which then propagate. *)
Definition try_except {A} (m : M A) (h : Exn -> option (M A)) : M A :=
  fun w =>
    match m w with
    | (inl e, w') =>
        match h e with
        | Some k => k w'
        | None => (inl e, w')
        end
    | r => r
    end.

(** [try: m finally: f], the shape of a [with] block's exit. *)
Definition finally {A} (m : M A) (f : M unit) : M A :=
  fun w =>
    match m w with
    | (r, w') =>
        match f w' with
        | (inl e, w'') => (inl e, w'')
        | (inr _, w'') => (r, w'')
        end
    end.

Definition emit (o : Obs) : M unit :=
  fun w => (inr tt, mkWorld (prog w) (obs w ++ [o])).

#[global] Instance M_ret : MRet M := @ret.
#[global] Instance M_bind : MBind M := fun A B k m => bind m k.

(** The display operations, performed on the world and recorded. *)
Definition progress_start : M unit :=
  fun w => (inr tt, mkWorld (Rich.start (prog w)) (obs w ++ [OProgress Rich.Start])).

Definition progress_stop : M unit :=
  fun w => (inr tt, mkWorld (Rich.stop (prog w)) (obs w ++ [OProgress Rich.Stop])).

Definition progress_add_task (descr : string) : M Rich.TaskID :=
  fun w =>
    let '(p, t) := Rich.add_task descr (prog w) in
    (inr t, mkWorld p (obs w ++ [OProgress (Rich.AddTask descr t)])).

Definition progress_update_advance (t : Rich.TaskID) (n : Z) : M unit :=
  fun w =>
    match Rich.update_advance t n (prog w) with
    | Some p => (inr tt, mkWorld p (obs w ++ [OProgress (Rich.UpdateAdvance t n)]))
    | None => (inl (RichKeyError t), w)
    end.

Definition progress_update_completed (t : Rich.TaskID) (n : Z) : M unit :=
  fun w =>
    match Rich.update_completed t n (prog w) with
    | Some p => (inr tt, mkWorld p (obs w ++ [OProgress (Rich.UpdateCompleted t n)]))
    | None => (inl (RichKeyError t), w)
    end.

(** Python closes the process with a failure status when an exception
    reaches the top level, and with success when [main] returns. *)
Definition exit_status (r : Exn + unit) : ExitStatus :=
  match r with
  | inr _ => Success
  | inl (ProcessExit s) => s
  | inl _ => Failure
  end.

(** ** The handlers' generator

    The handler classes are not part of the sources at hand.  One run of
    [entity.fetch_data()] is described by what the consumer can see of it:
    the objects it yields, how it ends (exhausted, or an exception raised
    from the generator), and the result fields and warnings it has written
    into the handler by then. *)
Inductive GenEnd :=
| Exhausted
| Raises (e : Exn).

Record GenRun := mkGenRun {
  yielded : list Yielded;
  ending : GenEnd;
  fetched : Fetched;
  fetched_resolutions : option Blob
}.

(** The handler object after its generator has run: same class, same
    constructor arguments, result fields as the run left them. *)
Definition absorb (run : GenRun) (h : BaseHandler) : BaseHandler :=
  match h with
  | DomainHandler a m _ _ => DomainHandler a m (fetched run) (fetched_resolutions run)
  | IpAddressHandler a _ => IpAddressHandler a (fetched run)
  end.

(** Python truthiness of an [Optional[str]]. *)
Definition truthy (o : option string) : bool :=
  match o with
  | Some s => negb (String.eqb s "")
  | None => false
  end.

(** [os.environ[k]]. *)
Definition environ_getitem (environ : gmap string string) (k : string) : M string :=
  match environ !! k with
  | Some v => mret v
  | None => raise (KeyError k)
  end.

(** Modelled from the spec: [wtfis.utils.error_and_exit] is missing from
    the sources; by the spec the fatal error message is surfaced to the
    end user and the process terminates with a failure status. *)
Definition error_and_exit {A} (msg : string) : M A :=
  emit (OError msg);; raise (ProcessExit Failure).

(** Modelled from the spec: [BaseHandler.print_warnings] is missing from
    the sources; by the spec it renders each accumulated warning as a
    diagnostic, prints nothing for an empty list, and does not affect
    the exit status. *)
Fixpoint print_each (ws : list string) : M unit :=
  match ws with
  | [] => mret tt
  | w :: ws' => emit (OWarning w);; print_each ws'
  end.

Definition print_warnings (h : BaseHandler) : M unit :=
  print_each (warnings (handler_got h)).

(** Modelled from the spec: [BaseView.print] is missing from the sources;
    by the spec the view formats the result bundle it was built from for
    terminal display, with the single- or multi-column layout option. *)
Definition view_print (v : BaseView) (one_col : bool) : M unit :=
  emit (OReport v one_col).

(** Modelled from the spec: [wtfis.ui.progress.get_progress] is missing
    from the sources; it builds the progress reporter for the console, a
    display with no task that is not yet live. *)
Definition get_progress (console : Console) : Rich.Progress :=
  Rich.mkProgress [] false.

(** [Console(no_color=True) if config.no_color else Console()]. *)
Definition make_console (config : Config) : Console :=
  if no_color config then mkConsole true else mkConsole false.

Section Main.

(** [wtfis.utils.is_ip], the classifier of entity strings, and the
    handlers' [fetch_data] generator are parameters of the entry point. *)
Variable is_ip : string -> bool.
Variable handler_fetch_data : BaseHandler -> GenRun.

Definition generate_entity_handler
    (environ : gmap string string) (config : Config) (console : Console)
  : M BaseHandler :=
  let vt := VTClient (vt_api_key config) in
  let ip_geoasn := IpWhoisClient in
  let whois_c :=
    match ip2whois_api_key config with
    | Some key =>
        if truthy (Some key) && negb (is_ip (entity config))
        then Ip2WhoisClient key
        else vt
    | None => vt
    end in
  shodan_c ←
    (if use_shodan config
     then key ← environ_getitem environ "SHODAN_API_KEY"; mret (Some (ShodanClient key))
     else mret None);
  let greynoise_c :=
    if use_greynoise config
    then Some (GreynoiseClient (greynoise_api_key config)) else None in
  let abuseipdb_c :=
    if use_abuseipdb config
    then Some (AbuseIpDbClient (abuseipdb_api_key config)) else None in
  let urlhaus_c := if use_urlhaus config then Some UrlHausClient else None in
  let args :=
    mkHandlerArgs (entity config) console vt ip_geoasn whois_c
                  shodan_c greynoise_c abuseipdb_c urlhaus_c in
  if negb (is_ip (entity config))
  then mret (DomainHandler args (max_resolutions config) unfetched None)
  else mret (IpAddressHandler args unfetched).

(** Building a view is recorded in the trace, so that a run in which no
    view is ever constructed can be told from one in which a view is. *)
Definition generate_view
    (config : Config) (console : Console) (handler : BaseHandler)
  : M BaseView :=
  match handler with
  | DomainHandler _ _ got res =>
      match vt_info got with
      | Domain d =>
          let view :=
            DomainView console d (geoasn got) (whois got) (shodan got)
                       (greynoise got) (abuseipdb got) (urlhaus got)
                       res (max_resolutions config) in
          emit (OView view);; mret view
      | _ => raise (WtfisException "Unsupported entity!")
      end
  | IpAddressHandler _ got =>
      match vt_info got with
      | IpAddress d =>
          let view :=
            IpAddressView console d (geoasn got) (whois got) (shodan got)
                          (greynoise got) (abuseipdb got) (urlhaus got) in
          emit (OView view);; mret view
      | _ => raise (WtfisException "Unsupported entity!")
      end
  end.

(** The closure [_finish_task] over the local variable [task]. *)
Definition _finish_task (task : option Rich.TaskID) : M unit :=
  match task with
  | Some t => progress_update_completed t 100
  | None => mret tt
  end.

(** One iteration of the [for] loop; the result is the new value of
    [task]. *)
Definition loop_body (task : option Rich.TaskID) (x : Yielded)
  : M (option Rich.TaskID) :=
  match x with
  | YTuple descr adv =>
      _finish_task task;;
      t ← progress_add_task descr;
      progress_update_advance t adv;;
      mret (Some t)
  | YInt n =>
      match task with
      | Some t => progress_update_advance t n;; mret task
      | None => mret task
      end
  | YOther => mret task
  end.

(** [for x in entity.fetch_data(): ...]: the loop pulls the generator
    until it is exhausted or raises. *)
Fixpoint for_loop (task : option Rich.TaskID) (xs : list Yielded) (e : GenEnd)
  : M (option Rich.TaskID) :=
  match xs with
  | [] =>
      match e with
      | Exhausted => mret task
      | Raises ex => raise ex
      end
  | x :: xs' => task' ← loop_body task x; for_loop task' xs' e
  end.

(** [fetch_data(progress, entity)]; [run] is the generator obtained from
    [entity.fetch_data()], and [progress] is the display of the world.
    The [with] block starts the display and stops it on the way out. *)
Definition fetch_data (run : GenRun) : M unit :=
  finally
    (progress_start;;
     try_except
       (task ← for_loop None (yielded run) (ending run);
        _finish_task task)
       (fun e =>
          match e with
          | HandlerException msg => Some (progress_stop;; error_and_exit msg)
          | _ => None
          end))
    progress_stop.

(** [main()], from the loaded configuration on.  The handler object is
    mutated in place by its generator; [absorb] is the object as the
    later statements see it. *)
Definition main (environ : gmap string string) (config : Config) : M unit :=
  let console := make_console config in
  handler ← generate_entity_handler environ config console;
  let run := handler_fetch_data handler in
  fetch_data run;;
  let handler := absorb run handler in
  print_warnings handler;;
  view ← generate_view config console handler;
  view_print view (one_column config).

(** A whole run: [main] from a fresh display and an empty trace. *)
Definition run_main (environ : gmap string string) (config : Config)
  : (Exn + unit) * World :=
  main environ config (mkWorld (get_progress (make_console config)) []).

End Main.

(** ** Reading a trace *)

Fixpoint count (f : Obs -> bool) (tr : list Obs) : nat :=
  match tr with
  | [] => 0
  | o :: tr' => (if f o then 1 else 0) + count f tr'
  end.

(** A phase is opened by [add_task] and force-completed by
    [update(task, completed=100)]. *)
Definition is_open (o : Obs) : bool :=
  match o with OProgress (Rich.AddTask _ _) => true | _ => false end.

Definition is_force (o : Obs) : bool :=
  match o with
  | OProgress (Rich.UpdateCompleted _ n) => (n =? 100)%Z
  | _ => false
  end.

Definition is_progress (o : Obs) : bool :=
  match o with OProgress _ => true | _ => false end.

Definition is_view_obs (o : Obs) : bool :=
  match o with OView _ | OReport _ _ => true | _ => false end.

Definition is_domain_view (v : BaseView) : bool :=
  match v with DomainView _ _ _ _ _ _ _ _ _ _ => true | _ => false end.

Definition is_ip_view (v : BaseView) : bool :=
  match v with IpAddressView _ _ _ _ _ _ _ _ => true | _ => false end.

Definition domain_shaped (i : VtInfo) : bool :=
  match i with Domain _ => true | _ => false end.

Definition ip_shaped (i : VtInfo) : bool :=
  match i with IpAddress _ => true | _ => false end.

Definition is_tuple (x : Yielded) : bool :=
  match x with YTuple _ _ => true | _ => false end.

Definition tuples (xs : list Yielded) : nat :=
  length (List.filter is_tuple xs).

Definition is_handler_exception (e : Exn) : bool :=
  match e with HandlerException _ => true | _ => false end.

(** Whether the WHOIS selector takes the dedicated client: the key is
    set (and not empty) and the entity is not an IP address. *)
Definition dedicated_whois (is_ip : string -> bool) (config : Config) : bool :=
  truthy (ip2whois_api_key config) && negb (is_ip (entity config)).

(** Whether [os.environ["SHODAN_API_KEY"]] is evaluated and fails. *)
Definition shodan_key_missing (environ : gmap string string) (config : Config)
  : bool :=
  use_shodan config && bool_decide (environ !! "SHODAN_API_KEY" = None).

(** The two conditions of [generate_view]. *)
Definition domain_case (h : BaseHandler) : bool :=
  is_domain_handler h && domain_shaped (vt_info (handler_got h)).

Definition ip_case (h : BaseHandler) : bool :=
  is_ip_handler h && ip_shaped (vt_info (handler_got h)).

(** What [_finish_task] does to the display, by the value of [task]. *)
Definition finish_obs (task : option Rich.TaskID) : list Obs :=
  match task with
  | Some t => [OProgress (Rich.UpdateCompleted t 100)]
  | None => []
  end.

(** Whether [task] is [None] or names a task of the display. *)
Definition task_known (task : option Rich.TaskID) (p : Rich.Progress) : Prop :=
  match task with
  | Some t => is_Some (Rich.tasks p !! t)
  | None => True
  end.

(** The state of the consumer loop.  [n0] tasks were on the display
    before the loop and [tr] is what the loop has done so far.

    [Closed]: every phase the loop has opened has been force-completed. *)
Record Closed (n0 : nat) (tr : list Obs) (p : Rich.Progress) : Prop := mkClosed {
  cl_opened : n0 + count is_open tr = length (Rich.tasks p);
  cl_forced : count is_force tr = count is_open tr;
  cl_done : forall i tk,
      Rich.tasks p !! i = Some tk -> n0 <= i ->
      Rich.completed tk = 100%Z /\ Rich.total tk = 100%Z;
  cl_fresh : forall t n,
      OProgress (Rich.UpdateCompleted t n) ∈ tr -> t < length (Rich.tasks p);
  cl_progress : forallb is_progress tr = true
}.

(** [Opened]: the phase [t] is open, it is the last one on the display,
    and it alone has not been force-completed. *)
Record Opened (n0 : nat) (tr : list Obs) (p : Rich.Progress)
              (t : Rich.TaskID) : Prop := mkOpened {
  op_cur : S t = length (Rich.tasks p);
  op_base : n0 <= t;
  op_opened : n0 + count is_open tr = length (Rich.tasks p);
  op_forced : count is_force tr + 1 = count is_open tr;
  op_done : forall i tk,
      Rich.tasks p !! i = Some tk -> n0 <= i -> i <> t ->
      Rich.completed tk = 100%Z /\ Rich.total tk = 100%Z;
  op_total : forall tk, Rich.tasks p !! t = Some tk -> Rich.total tk = 100%Z;
  op_fresh : forall t' n,
      OProgress (Rich.UpdateCompleted t' n) ∈ tr -> t' < t;
  op_progress : forallb is_progress tr = true
}.

(** The invariant of the [for] loop, by the value of the local [task]:
    while it is [None] the loop has not touched the display. *)
Definition LoopInv (n0 : nat) (tr : list Obs) (p : Rich.Progress)
                   (task : option Rich.TaskID) : Prop :=
  match task with
  | Some t => Opened n0 tr p t
  | None => Closed n0 tr p /\ tr = []
  end.

(** ** Sample inputs *)

(** A classifier for the examples: dotted-quad IPv4 literals. *)
Definition digit_value (c : ascii) : option nat :=
  let n := nat_of_ascii c in
  if ((48 <=? n) && (n <=? 57))%nat then Some (n - 48) else None.

Fixpoint octets (s : string) (cur : option nat) (acc : list nat)
  : option (list nat) :=
  match s with
  | EmptyString =>
      match cur with Some v => Some ((acc ++ [v])%list) | None => None end
  | String c s' =>
      if Ascii.eqb c "."%char
      then match cur with
           | Some v => octets s' None ((acc ++ [v])%list)
           | None => None
           end
      else match digit_value c with
           | Some d =>
               let v := match cur with Some v => 10 * v + d | None => d end in
               if (v <=? 255)%nat then octets s' (Some v) acc else None
           | None => None
           end
  end.

Definition dotted_quad (s : string) : bool :=
  match octets s None [] with
  | Some l => (length l =? 4)%nat
  | None => false
  end.

Definition sample_config (e : string) : Config :=
  mkConfig e "vt-key" None false false None false None false 3 false false.

Definition sample_config_whois (e : string) : Config :=
  mkConfig e "vt-key" (Some "w-key") false false None false None false 3 false false.

Definition sample_config_shodan (e : string) : Config :=
  mkConfig e "vt-key" None true true (Some "g-key") false None true 3 false true.

Definition sample_environ : gmap string string :=
  {[ "SHODAN_API_KEY" := "s-key" ]}.

Definition sample_events : list Yielded :=
  [YInt 5; YTuple "Fetching data from Virustotal" 0; YInt 50; YInt 50;
   YTuple "Fetching IP enrichments" 0; YOther; YInt 30].

Definition sample_domain_run : GenRun :=
  mkGenRun sample_events Exhausted
    (mkFetched (Domain "example.com") (Some "geo") (Some "whois")
               None None None None ["Could not fetch Greynoise: 503"])
    (Some "resolutions").

Definition sample_ip_run : GenRun :=
  mkGenRun sample_events Exhausted
    (mkFetched (IpAddress "93.184.216.34") (Some "geo") (Some "whois")
               None None None None [])
    None.

Definition sample_failing_run : GenRun :=
  mkGenRun [YTuple "Fetching data from Virustotal" 0; YInt 50]
    (Raises (HandlerException "Error fetching data: 401"))
    unfetched None.

Definition sample_mismatch_run : GenRun :=
  mkGenRun sample_events Exhausted
    (mkFetched (IpAddress "93.184.216.34") None None None None None None [])
    None.

Definition sample_fetch (h : BaseHandler) : GenRun :=
  if is_domain_handler h then sample_domain_run else sample_ip_run.

Definition fresh_world : World := mkWorld (Rich.mkProgress [] false) [].


(** ** Further readings of a run *)


Definition is_report (o : Obs) : bool :=
  match o with OReport _ _ => true | _ => false end.

Definition is_view_built (o : Obs) : bool :=
  match o with OView _ => true | _ => false end.


Definition is_other (x : Yielded) : bool :=
  match x with YOther => true | _ => false end.

(** The labels of the yielded tuples, in order. *)
Fixpoint labels (xs : list Yielded) : list string :=
  match xs with
  | [] => []
  | YTuple descr _ :: xs' => descr :: labels xs'
  | _ :: xs' => labels xs'
  end.

Fixpoint sumZ (ns : list Z) : Z :=
  match ns with
  | [] => 0%Z
  | n :: ns' => (n + sumZ ns')%Z
  end.

(** The display as [progress.start()] leaves it, with the call recorded. *)
Definition started (w : World) : World :=
  mkWorld (Rich.start (prog w)) (obs w ++ [OProgress Rich.Start]).

(** The local [task] names a task of the display that the loop itself
    has opened ([n0] tasks were there before). *)
Definition own_task (n0 : nat) (task : option Rich.TaskID) (p : Rich.Progress)
  : Prop :=
  match task with
  | Some t => n0 <= t /\ is_Some (Rich.tasks p !! t)
  | None => True
  end.

(** The tasks that were on the display before the loop are as they were,
    and the tasks after them carry the labels [ls], in order. *)
Definition Frame (n0 : nat) (pre : list Rich.Task) (ls : list string)
                 (p : Rich.Progress) : Prop :=
  take n0 (Rich.tasks p) = pre
  /\ drop n0 (Rich.description <$> Rich.tasks p) = ls
  /\ n0 <= length (Rich.tasks p).

(** The task opened last in a trace, [cur] if the trace opens none. *)
Fixpoint last_opened (cur : option Rich.TaskID) (tr : list Obs)
  : option Rich.TaskID :=
  match tr with
  | [] => cur
  | OProgress (Rich.AddTask _ id) :: tr' => last_opened (Some id) tr'
  | _ :: tr' => last_opened cur tr'
  end.

(** Whether every update of a trace goes to the task opened last before
    it ([cur] at the start of the trace). *)
Fixpoint scoped (cur : option Rich.TaskID) (tr : list Obs) : bool :=
  match tr with
  | [] => true
  | OProgress (Rich.AddTask _ id) :: tr' => scoped (Some id) tr'
  | OProgress (Rich.UpdateAdvance t _) :: tr' =>
      bool_decide (cur = Some t) && scoped cur tr'
  | OProgress (Rich.UpdateCompleted t _) :: tr' =>
      bool_decide (cur = Some t) && scoped cur tr'
  | _ :: tr' => scoped cur tr'
  end.

(** The state of the loop as the trace shows it: [task] is the task the
    trace opened last, it is on the display, and the trace is scoped. *)
Definition Scoped (tr : list Obs) (p : Rich.Progress)
                  (task : option Rich.TaskID) : Prop :=
  last_opened None tr = task /\ scoped None tr = true /\ task_known task p.

(** The view [generate_view] builds from a handler of the right shape. *)
Definition view_of (config : Config) (console : Console) (is_ip_entity : bool)
                   (run : GenRun) (d : Blob) : BaseView :=
  let got := fetched run in
  if is_ip_entity
  then IpAddressView console d (geoasn got) (whois got) (shodan got)
                     (greynoise got) (abuseipdb got) (urlhaus got)
  else DomainView console d (geoasn got) (whois got) (shodan got)
                  (greynoise got) (abuseipdb got) (urlhaus got)
                  (fetched_resolutions run) (max_resolutions config).


Definition sample_environ_noise : gmap string string :=
  {[ "SHODAN_API_KEY" := "s-key"; "HOME" := "/root" ]}.

(** The handlers [generate_entity_handler] builds for the sample
    configurations. *)
Definition sample_args (e : string) (whois_c : Client) : HandlerArgs :=
  mkHandlerArgs e (mkConsole false) (VTClient "vt-key") IpWhoisClient whois_c
                None None None None.

Definition sample_domain_handler : BaseHandler :=
  DomainHandler (sample_args "example.com" (VTClient "vt-key")) 3 unfetched None.

Definition sample_whois_handler : BaseHandler :=
  DomainHandler (sample_args "example.com" (Ip2WhoisClient "w-key")) 3
                unfetched None.

Definition sample_ip_handler : BaseHandler :=
  IpAddressHandler (sample_args "93.184.216.34" (VTClient "vt-key")) unfetched.

Definition sample_shodan_handler : BaseHandler :=
  DomainHandler
    (mkHandlerArgs "example.com" (mkConsole false) (VTClient "vt-key")
       IpWhoisClient (VTClient "vt-key") (Some (ShodanClient "s-key"))
       (Some (GreynoiseClient (Some "g-key"))) None (Some UrlHausClient))
    3 unfetched None.

(** * Properties *)

(** ** Traces *)

Lemma count_app f (l1 l2 : list Obs) :
  count f (l1 ++ l2) = count f l1 + count f l2.
Proof. induction l1 as [|o l1 IH]; simpl; [done | rewrite IH; lia]. Qed.

Lemma count_snoc f (l : list Obs) o :
  count f (l ++ [o]) = count f l + (if f o then 1 else 0).
Proof. rewrite count_app. simpl. lia. Qed.

Lemma forallb_snoc (f : Obs -> bool) l o :
  forallb f (l ++ [o]) = forallb f l && f o.
Proof. rewrite forallb_app. simpl. by rewrite andb_true_r. Qed.

Lemma count_zero_of_progress f (l : list Obs) :
  (forall o, is_progress o = true -> f o = false) ->
  forallb is_progress l = true -> count f l = 0.
Proof.
  intros Hf. induction l as [|o l IH]; simpl; [done |].
  intros [Ho Hl]%andb_true_iff. rewrite (Hf o Ho). by rewrite IH.
Qed.

(** ** The display *)

Lemma update_completed_lookup t n p tk :
  Rich.tasks p !! t = Some tk ->
  Rich.update_completed t n p =
  Some (Rich.mkProgress
          (<[t := Rich.mkTask (Rich.description tk) (Rich.total tk) n]> (Rich.tasks p))
          (Rich.live p)).
Proof. intros H. unfold Rich.update_completed. by rewrite H. Qed.

Lemma update_advance_lookup t n p tk :
  Rich.tasks p !! t = Some tk ->
  Rich.update_advance t n p =
  Some (Rich.mkProgress
          (<[t := Rich.mkTask (Rich.description tk) (Rich.total tk)
                              (Rich.completed tk + n)]> (Rich.tasks p))
          (Rich.live p)).
Proof. intros H. unfold Rich.update_advance. by rewrite H. Qed.

Lemma opened_lookup n0 tr p t :
  Opened n0 tr p t -> exists tk, Rich.tasks p !! t = Some tk.
Proof.
  intros H. apply lookup_lt_is_Some_2. pose proof (op_cur _ _ _ _ H). lia.
Qed.

(** ** The consumer loop, step by step *)

Lemma finish_opened n0 base tr p t :
  Opened n0 tr p t ->
  exists p',
    _finish_task (Some t) (mkWorld p (base ++ tr)) =
    (inr tt, mkWorld p' (base ++ (tr ++ [OProgress (Rich.UpdateCompleted t 100)])))
    /\ Closed n0 (tr ++ [OProgress (Rich.UpdateCompleted t 100)]) p'.
Proof.
  intros H. destruct (opened_lookup _ _ _ _ H) as [tk Htk].
  eexists. split.
  - simpl. unfold progress_update_completed. simpl.
    rewrite (update_completed_lookup _ _ _ _ Htk). by rewrite <- app_assoc.
  - destruct H as [Hcur Hbase Hop Hfo Hdone Htot Hfresh Hpr].
    split; simpl.
    + rewrite count_snoc, length_insert. simpl. lia.
    + rewrite !count_snoc. simpl. lia.
    + intros i tk' Hi Hn0. destruct (decide (i = t)) as [->|Hne].
      * rewrite list_lookup_insert_eq in Hi by lia.
        injection Hi as <-. simpl. split; [done | by apply Htot].
      * rewrite list_lookup_insert_ne in Hi by done. by apply Hdone with i.
    + intros t' n [Hin | Heq%list_elem_of_singleton]%elem_of_app;
        rewrite length_insert.
      * apply Hfresh in Hin. lia.
      * injection Heq as -> ->. lia.
    + rewrite forallb_snoc, Hpr. done.
Qed.

Lemma add_then_advance p descr adv :
  Rich.update_advance (length (Rich.tasks p)) adv (Rich.add_task descr p).1 =
  Some (Rich.mkProgress (Rich.tasks p ++ [Rich.mkTask descr 100 adv]) (Rich.live p)).
Proof.
  unfold Rich.update_advance, Rich.add_task. simpl.
  rewrite list_lookup_middle by done. simpl.
  rewrite insert_app_r_alt by lia. rewrite Nat.sub_diag. simpl.
  by rewrite Z.add_0_l.
Qed.

Lemma open_closed n0 base tr p descr adv :
  Closed n0 tr p ->
  let t := length (Rich.tasks p) in
  let tr' := tr ++ [OProgress (Rich.AddTask descr t);
                    OProgress (Rich.UpdateAdvance t adv)] in
  let p' := Rich.mkProgress (Rich.tasks p ++ [Rich.mkTask descr 100 adv])
                            (Rich.live p) in
  (t ← progress_add_task descr; progress_update_advance t adv;; mret (Some t))
    (mkWorld p (base ++ tr)) =
  (inr (Some t), mkWorld p' (base ++ tr'))
  /\ Opened n0 tr' p' t.
Proof.
  intros [Hop Hfo Hdone Hfresh Hpr] t tr' p'. split.
  - unfold mbind, M_bind, bind, progress_add_task, progress_update_advance,
      mret, M_ret, ret.
    pose proof (add_then_advance p descr adv) as Hadd.
    destruct (Rich.add_task descr p) as [p1 t1] eqn:E.
    assert (t1 = length (Rich.tasks p)) as ->
      by (unfold Rich.add_task in E; by injection E).
    subst t tr' p'. cbn [fst prog obs] in *. rewrite E.
    cbn [fst prog obs]. rewrite Hadd. by rewrite <- !app_assoc.
  - subst p' tr' t. split; simpl; rewrite ?length_app; simpl.
    + lia.
    + lia.
    + rewrite count_app. simpl. lia.
    + rewrite !count_app. simpl. lia.
    + intros i tk Hi Hn0 Hne. apply Hdone with i; [| done].
      rewrite lookup_app_l in Hi; [done |].
      apply lookup_lt_Some in Hi. rewrite length_app in Hi. simpl in Hi. lia.
    + intros tk Hi. rewrite list_lookup_middle in Hi by done.
      by injection Hi as <-.
    + intros t' n [Hin | Hin]%elem_of_app.
      * by apply Hfresh in Hin.
      * apply elem_of_cons in Hin as [Heq | Hin]; [discriminate |].
        apply list_elem_of_singleton in Hin. discriminate.
    + rewrite forallb_app, Hpr. done.
Qed.

Lemma advance_opened n0 base tr p t n :
  Opened n0 tr p t ->
  exists p',
    progress_update_advance t n (mkWorld p (base ++ tr)) =
    (inr tt, mkWorld p' (base ++ (tr ++ [OProgress (Rich.UpdateAdvance t n)])))
    /\ Opened n0 (tr ++ [OProgress (Rich.UpdateAdvance t n)]) p' t.
Proof.
  intros H. destruct (opened_lookup _ _ _ _ H) as [tk Htk].
  eexists. split.
  - unfold progress_update_advance. simpl.
    rewrite (update_advance_lookup _ _ _ _ Htk). by rewrite <- app_assoc.
  - destruct H as [Hcur Hbase Hop Hfo Hdone Htot Hfresh Hpr].
    split; simpl; rewrite ?length_insert; try done.
    + rewrite count_snoc. simpl. lia.
    + rewrite !count_snoc. simpl. lia.
    + intros i tk' Hi Hn0 Hne.
      rewrite list_lookup_insert_ne in Hi by done. by apply Hdone with i.
    + intros tk' Hi. rewrite list_lookup_insert_eq in Hi by lia.
      injection Hi as <-. simpl. by apply Htot.
    + intros t' n' [Hin | Heq%list_elem_of_singleton]%elem_of_app.
      * by apply Hfresh in Hin.
      * discriminate.
    + rewrite forallb_snoc, Hpr. done.
Qed.

Lemma bind_inr {A B} (m : M A) (k : A -> M B) w a w' :
  m w = (inr a, w') -> (m ≫= k) w = k a w'.
Proof. intros H. unfold mbind, M_bind, bind. by rewrite H. Qed.

Lemma bind_inl {A B} (m : M A) (k : A -> M B) w e w' :
  m w = (inl e, w') -> (m ≫= k) w = (inl e, w').
Proof. intros H. unfold mbind, M_bind, bind. by rewrite H. Qed.

(** One iteration keeps the invariant, never raises, and opens a phase
    exactly when the yielded object is a tuple. *)
Lemma loop_body_inv n0 base tr p task x :
  LoopInv n0 tr p task ->
  exists task' p' ext,
    loop_body task x (mkWorld p (base ++ tr)) =
    (inr task', mkWorld p' (base ++ (tr ++ ext)))
    /\ LoopInv n0 (tr ++ ext) p' task'
    /\ count is_open ext = (if is_tuple x then 1 else 0).
Proof.
  intros Hinv. destruct x as [descr adv | n |].
  - (* a tuple: finish the open task, open the next one *)
    destruct task as [t|]; simpl in Hinv.
    + destruct (finish_opened n0 base tr p t Hinv) as (p1 & E1 & Hcl).
      destruct (open_closed n0 base _ p1 descr adv Hcl) as [E2 Hop].
      eexists _, _,
        ([OProgress (Rich.UpdateCompleted t 100)] ++
         [OProgress (Rich.AddTask descr (length (Rich.tasks p1)));
          OProgress (Rich.UpdateAdvance (length (Rich.tasks p1)) adv)]).
      rewrite (assoc_L (++) tr). split; [| split].
      * unfold loop_body. rewrite (bind_inr _ _ _ _ _ E1), E2. done.
      * exact Hop.
      * done.
    + destruct Hinv as [Hinv _].
      destruct (open_closed n0 base tr p descr adv Hinv) as [E2 Hop].
      eexists _, _, [_; _]. split; [| split].
      * unfold loop_body. simpl _finish_task.
        rewrite (bind_inr _ _ (mkWorld p (base ++ tr)) tt (mkWorld p (base ++ tr)))
          by done.
        exact E2.
      * exact Hop.
      * done.
  - (* an int: advance the open task, if there is one *)
    destruct task as [t|]; simpl in Hinv.
    + destruct (advance_opened n0 base tr p t n Hinv) as (p1 & E1 & Hop).
      eexists _, _, [_]. split; [| split].
      * unfold loop_body. rewrite (bind_inr _ _ _ _ _ E1). reflexivity.
      * exact Hop.
      * done.
    + exists None, p, []. rewrite app_nil_r. done.
  - exists task, p, []. rewrite app_nil_r. done.
Qed.

Lemma tuples_cons x xs :
  tuples (x :: xs) = (if is_tuple x then 1 else 0) + tuples xs.
Proof. unfold tuples. simpl. by destruct (is_tuple x). Qed.

(** The whole loop: the yielded objects are consumed in order, none of
    the display calls raises, and the loop ends the way the generator
    does. *)
Lemma for_loop_inv n0 base e xs : forall tr p task,
  LoopInv n0 tr p task ->
  exists task' p' ext,
    for_loop task xs e (mkWorld p (base ++ tr)) =
    (match e with Exhausted => inr task' | Raises ex => inl ex end,
     mkWorld p' (base ++ (tr ++ ext)))
    /\ LoopInv n0 (tr ++ ext) p' task'
    /\ count is_open ext = tuples xs.
Proof.
  induction xs as [|x xs IH]; intros tr p task Hinv.
  - exists task, p, []. rewrite app_nil_r. simpl. by destruct e.
  - destruct (loop_body_inv n0 base tr p task x Hinv)
      as (task1 & p1 & ext1 & E1 & Hinv1 & Hc1).
    destruct (IH _ _ _ Hinv1) as (task2 & p2 & ext2 & E2 & Hinv2 & Hc2).
    exists task2, p2, (ext1 ++ ext2). split; [| split].
    + simpl. rewrite (bind_inr _ _ _ _ _ E1), E2. by rewrite (assoc_L (++) tr).
    + by rewrite (assoc_L (++) tr).
    + rewrite count_app, tuples_cons. lia.
Qed.

Lemma closed_initial p : Closed (length (Rich.tasks p)) [] p.
Proof.
  split; simpl.
  - lia.
  - done.
  - intros i tk Hi Hn0. apply lookup_lt_Some in Hi. lia.
  - intros t n Hin. by apply elem_of_nil in Hin.
  - done.
Qed.

Lemma for_loop_start e xs w :
  exists task p ext,
    for_loop None xs e
      (mkWorld (Rich.start (prog w)) (obs w ++ [OProgress Rich.Start])) =
    (match e with Exhausted => inr task | Raises ex => inl ex end,
     mkWorld p ((obs w ++ [OProgress Rich.Start]) ++ ext))
    /\ LoopInv (length (Rich.tasks (prog w))) ext p task
    /\ count is_open ext = tuples xs.
Proof.
  pose proof (for_loop_inv (length (Rich.tasks (prog w)))
                (obs w ++ [OProgress Rich.Start]) e xs []
                (Rich.start (prog w)) None
                (conj (closed_initial (Rich.start (prog w))) eq_refl))
    as (task & p & ext & E & Hinv & Hc).
  rewrite app_nil_r in E. simpl in E, Hinv. eauto 10.
Qed.

(** ** [fetch_data], by the way the generator ends *)

Lemma fetch_data_exhausted run w :
  ending run = Exhausted ->
  exists p tr,
    fetch_data run w =
    (inr tt, mkWorld (Rich.stop p)
               (obs w ++ [OProgress Rich.Start] ++ tr ++ [OProgress Rich.Stop]))
    /\ Closed (length (Rich.tasks (prog w))) tr p
    /\ count is_open tr = tuples (yielded run).
Proof.
  intros Hend.
  destruct (for_loop_start (ending run) (yielded run) w)
    as (task & p & ext & E & Hinv & Hc).
  rewrite Hend in E.
  destruct task as [t|]; simpl in Hinv.
  - destruct (finish_opened _ (obs w ++ [OProgress Rich.Start]) _ _ _ Hinv)
      as (p1 & E1 & Hcl).
    exists p1, (ext ++ [OProgress (Rich.UpdateCompleted t 100)]).
    split; [| split; [done |]].
    + unfold fetch_data, finally, try_except, mbind, M_bind, bind, progress_start.
      rewrite Hend, E, E1. unfold progress_stop. simpl.
      by rewrite <- !(assoc_L (++)).
    + rewrite count_snoc. simpl. lia.
  - destruct Hinv as [Hinv _]. exists p, ext. split; [| done].
    unfold fetch_data, finally, try_except, mbind, M_bind, bind, progress_start.
    rewrite Hend, E. unfold progress_stop. simpl.
    by rewrite <- !(assoc_L (++)).
Qed.

Lemma fetch_data_handler_exception run w msg :
  ending run = Raises (HandlerException msg) ->
  exists p task tr,
    fetch_data run w =
    (inl (ProcessExit Failure),
     mkWorld (Rich.stop (Rich.stop p))
       (obs w ++ [OProgress Rich.Start] ++ tr ++
        [OProgress Rich.Stop; OError msg; OProgress Rich.Stop]))
    /\ LoopInv (length (Rich.tasks (prog w))) tr p task
    /\ count is_open tr = tuples (yielded run).
Proof.
  intros Hend.
  destruct (for_loop_start (ending run) (yielded run) w)
    as (task & p & ext & E & Hinv & Hc).
  rewrite Hend in E. exists p, task, ext. split; [| done].
  unfold fetch_data, finally, try_except, mbind, M_bind, bind, progress_start.
  rewrite Hend, E. unfold progress_stop, error_and_exit. simpl.
  by rewrite <- !(assoc_L (++)).
Qed.

Lemma fetch_data_other_exception run w e :
  ending run = Raises e ->
  is_handler_exception e = false ->
  exists p task tr,
    fetch_data run w =
    (inl e,
     mkWorld (Rich.stop p)
       (obs w ++ [OProgress Rich.Start] ++ tr ++ [OProgress Rich.Stop]))
    /\ LoopInv (length (Rich.tasks (prog w))) tr p task
    /\ count is_open tr = tuples (yielded run).
Proof.
  intros Hend He.
  destruct (for_loop_start (ending run) (yielded run) w)
    as (task & p & ext & E & Hinv & Hc).
  rewrite Hend in E. exists p, task, ext. split; [| done].
  unfold fetch_data, finally, try_except, mbind, M_bind, bind, progress_start.
  rewrite Hend, E. unfold progress_stop.
  destruct e; try discriminate; simpl; by rewrite <- !(assoc_L (++)).
Qed.

(** ** Client selection *)

Lemma loopinv_progress n0 tr p task :
  LoopInv n0 tr p task -> forallb is_progress tr = true.
Proof.
  destruct task; simpl; [apply op_progress |].
  intros [H _]. exact (cl_progress _ _ _ H).
Qed.

(** What [generate_entity_handler] returns when it returns, field by
    field. *)
Lemma generate_entity_handler_inr is_ip environ config console w h w' :
  generate_entity_handler is_ip environ config console w = (inr h, w') ->
  w' = w
  /\ shodan_key_missing environ config = false
  /\ handler_got h = unfetched
  /\ h_entity (handler_args h) = entity config
  /\ h_console (handler_args h) = console
  /\ vt_client (handler_args h) = VTClient (vt_api_key config)
  /\ ip_geoasn_client (handler_args h) = IpWhoisClient
  /\ whois_client (handler_args h) =
     match ip2whois_api_key config with
     | Some key =>
         if dedicated_whois is_ip config then Ip2WhoisClient key
         else VTClient (vt_api_key config)
     | None => VTClient (vt_api_key config)
     end
  /\ shodan_client (handler_args h) =
     (if use_shodan config
      then ShodanClient <$> environ !! "SHODAN_API_KEY" else None)
  /\ greynoise_client (handler_args h) =
     (if use_greynoise config
      then Some (GreynoiseClient (greynoise_api_key config)) else None)
  /\ abuseipdb_client (handler_args h) =
     (if use_abuseipdb config
      then Some (AbuseIpDbClient (abuseipdb_api_key config)) else None)
  /\ urlhaus_client (handler_args h) =
     (if use_urlhaus config then Some UrlHausClient else None)
  /\ h = (if is_ip (entity config)
          then IpAddressHandler (handler_args h) unfetched
          else DomainHandler (handler_args h) (max_resolutions config)
                             unfetched None).
Proof.
  unfold generate_entity_handler, shodan_key_missing, dedicated_whois,
    environ_getitem, mbind, M_bind, bind, mret, M_ret, ret, raise.
  intros H.
  destruct (use_shodan config); simpl in *;
    [destruct (environ !! "SHODAN_API_KEY") as [k|] eqn:Ek; simpl in *;
     [| discriminate] |];
    destruct (is_ip (entity config)); simpl in *;
    injection H as <- <-; simpl;
    destruct (ip2whois_api_key config) as [key|]; simpl;
    rewrite ?andb_false_r, ?andb_true_r; repeat split; done.
Qed.

Lemma generate_entity_handler_returns is_ip environ config console w :
  shodan_key_missing environ config = false ->
  exists h, generate_entity_handler is_ip environ config console w = (inr h, w).
Proof.
  unfold generate_entity_handler, shodan_key_missing,
    environ_getitem, mbind, M_bind, bind, mret, M_ret, ret, raise.
  intros H.
  destruct (use_shodan config); simpl in *.
  - destruct (environ !! "SHODAN_API_KEY") as [k|]; simpl in *.
    + destruct (is_ip (entity config)); simpl; eauto.
    + done.
  - destruct (is_ip (entity config)); simpl; eauto.
Qed.

Lemma generate_entity_handler_raises is_ip environ config console w :
  shodan_key_missing environ config = true ->
  generate_entity_handler is_ip environ config console w =
  (inl (KeyError "SHODAN_API_KEY"), w).
Proof.
  unfold generate_entity_handler, shodan_key_missing,
    environ_getitem, mbind, M_bind, bind, mret, M_ret, ret, raise.
  intros [Hs Hk%bool_decide_eq_true]%andb_true_iff.
  rewrite Hs, Hk. done.
Qed.

(** ** Warnings and views *)

Lemma print_each_trace ws w :
  print_each ws w = (inr tt, mkWorld (prog w) (obs w ++ map OWarning ws)).
Proof.
  revert w. induction ws as [|x ws IH]; intros w; simpl.
  - rewrite app_nil_r. by destruct w.
  - unfold mbind, M_bind, bind, emit. rewrite IH. simpl.
    by rewrite <- (assoc_L (++)).
Qed.

Lemma print_warnings_trace h w :
  print_warnings h w =
  (inr tt, mkWorld (prog w) (obs w ++ map OWarning (warnings (handler_got h)))).
Proof. apply print_each_trace. Qed.

Lemma generate_view_cases config console h w :
  (exists v, generate_view config console h w =
             (inr v, mkWorld (prog w) (obs w ++ [OView v]))
             /\ is_domain_view v = domain_case h
             /\ is_ip_view v = ip_case h
             /\ (domain_case h || ip_case h) = true)
  \/ (generate_view config console h w =
      (inl (WtfisException "Unsupported entity!"), w)
      /\ domain_case h = false /\ ip_case h = false).
Proof.
  unfold domain_case, ip_case.
  destruct h as [a m g r | a g]; simpl; destruct (vt_info g); simpl;
    (by right) || (left; eexists; split; [reflexivity | done]).
Qed.

(** C2: the WHOIS-capable client handed to the handler is the dedicated
    IP2Whois client exactly when [ip2whois_api_key] is set (a non-empty
    string) and the entity is not an IP address; in every other case it is
    the VirusTotal client, the very one passed as [vt_client]. *)
Theorem whois_client_precedence is_ip environ config console w h w' :
  generate_entity_handler is_ip environ config console w = (inr h, w') ->
  ((exists key, whois_client (handler_args h) = Ip2WhoisClient key) <->
   (truthy (ip2whois_api_key config) = true /\ is_ip (entity config) = false))
  /\ (forall key,
        ip2whois_api_key config = Some key ->
        dedicated_whois is_ip config = true ->
        whois_client (handler_args h) = Ip2WhoisClient key)
  /\ (dedicated_whois is_ip config = false ->
      whois_client (handler_args h) = VTClient (vt_api_key config)
      /\ whois_client (handler_args h) = vt_client (handler_args h)).
Proof.
  intros H.
  apply generate_entity_handler_inr in H
    as (_ & _ & _ & _ & _ & Hvt & _ & Hwhois & _).
  rewrite Hwhois, Hvt. unfold dedicated_whois.
  destruct (ip2whois_api_key config) as [key|]; simpl.
  - destruct (negb (String.eqb key "") && negb (is_ip (entity config))) eqn:E.
    + apply andb_true_iff in E as [E1 E2%negb_true_iff].
      split; [| split].
      * split; [done | eauto].
      * intros k [= <-] _. done.
      * discriminate.
    + split; [| split].
      * split; [intros [k Hk]; discriminate |].
        intros [E1 E2]. rewrite E1, E2 in E. discriminate.
      * discriminate.
      * done.
  - split; [| split].
    + split; [intros [k Hk]; discriminate | intros [? _]; discriminate].
    + discriminate.
    + done.
Qed.

Lemma whois_client_precedence_witness :
  whois_client (handler_args sample_whois_handler) = Ip2WhoisClient "w-key"
  /\ whois_client (handler_args sample_ip_handler) = VTClient "vt-key".
Proof.
  split.
  - refine (proj1 (proj2 (whois_client_precedence dotted_quad ∅
              (sample_config_whois "example.com") (mkConsole false)
              fresh_world sample_whois_handler fresh_world _)) "w-key" _ _);
      reflexivity.
  - refine (proj1 (proj2 (proj2 (whois_client_precedence dotted_quad ∅
              (sample_config_whois "93.184.216.34") (mkConsole false)
              fresh_world sample_ip_handler fresh_world _)) _));
      reflexivity.
Defined.

(** C5: [generate_entity_handler] builds the IP address handler, which has
    no bound on resolutions, exactly when [is_ip] holds of the entity, and
    otherwise the domain handler with [config.max_resolutions]; the fetch
    pass writes result fields only, so the class and the bound of the
    handler stay what they were at construction. *)
Theorem handler_variant_follows_is_ip
    is_ip environ config console w h w' :
  generate_entity_handler is_ip environ config console w = (inr h, w') ->
  (is_ip_handler h = true <-> is_ip (entity config) = true)
  /\ (is_domain_handler h = true <-> is_ip (entity config) = false)
  /\ handler_max_resolutions h =
     (if is_ip (entity config) then None else Some (max_resolutions config))
  /\ h_entity (handler_args h) = entity config
  /\ (forall run,
        is_ip_handler (absorb run h) = is_ip_handler h
        /\ is_domain_handler (absorb run h) = is_domain_handler h
        /\ handler_max_resolutions (absorb run h) = handler_max_resolutions h
        /\ handler_args (absorb run h) = handler_args h).
Proof.
  intros H.
  apply generate_entity_handler_inr in H
    as (_ & _ & _ & Hent & _ & _ & _ & _ & _ & _ & _ & _ & Hh).
  split; [| split; [| split; [| split]]].
  - rewrite Hh. by destruct (is_ip (entity config)).
  - rewrite Hh. by destruct (is_ip (entity config)).
  - rewrite Hh. by destruct (is_ip (entity config)).
  - exact Hent.
  - intros run. by destruct h.
Qed.

Lemma handler_variant_follows_is_ip_witness :
  handler_max_resolutions sample_ip_handler = None
  /\ handler_max_resolutions sample_domain_handler = Some 3%Z.
Proof.
  split.
  - refine (proj1 (proj2 (proj2 (handler_variant_follows_is_ip dotted_quad ∅
              (sample_config "93.184.216.34") (mkConsole false)
              fresh_world sample_ip_handler fresh_world _))));
      reflexivity.
  - refine (proj1 (proj2 (proj2 (handler_variant_follows_is_ip dotted_quad ∅
              (sample_config "example.com") (mkConsole false)
              fresh_world sample_domain_handler fresh_world _))));
      reflexivity.
Defined.

(** C6, as the code has it: whenever the Shodan flag is unset or
    [SHODAN_API_KEY] is defined in the environment,
    [generate_entity_handler] returns a handler without raising, and each
    of the four optional clients is instantiated if and only if its flag
    is set; with the flag unset the reference handed to the handler is
    [None]. *)
Theorem optional_clients_follow_flags is_ip environ config console w :
  shodan_key_missing environ config = false ->
  exists h,
    generate_entity_handler is_ip environ config console w = (inr h, w)
    /\ (is_Some (shodan_client (handler_args h)) <-> use_shodan config = true)
    /\ (is_Some (greynoise_client (handler_args h)) <->
        use_greynoise config = true)
    /\ (is_Some (abuseipdb_client (handler_args h)) <->
        use_abuseipdb config = true)
    /\ (is_Some (urlhaus_client (handler_args h)) <-> use_urlhaus config = true)
    /\ shodan_client (handler_args h) =
       (if use_shodan config
        then ShodanClient <$> environ !! "SHODAN_API_KEY" else None)
    /\ greynoise_client (handler_args h) =
       (if use_greynoise config
        then Some (GreynoiseClient (greynoise_api_key config)) else None)
    /\ abuseipdb_client (handler_args h) =
       (if use_abuseipdb config
        then Some (AbuseIpDbClient (abuseipdb_api_key config)) else None)
    /\ urlhaus_client (handler_args h) =
       (if use_urlhaus config then Some UrlHausClient else None).
Proof.
  intros Hkey.
  destruct (generate_entity_handler_returns is_ip environ config console w Hkey)
    as [h Hh].
  exists h. split; [exact Hh |].
  apply generate_entity_handler_inr in Hh
    as (_ & _ & _ & _ & _ & _ & _ & _ & Hs & Hg & Ha & Hu & _).
  rewrite Hs, Hg, Ha, Hu. unfold shodan_key_missing in Hkey.
  repeat split; try done.
  - destruct (use_shodan config); [done | by intros [? ?]].
  - intros Hflag. rewrite Hflag in Hkey |- *. simpl in Hkey.
    apply bool_decide_eq_false in Hkey.
    destruct (environ !! "SHODAN_API_KEY"); [by eexists | done].
  - destruct (use_greynoise config); [done | by intros [? ?]].
  - intros ->. by eexists.
  - destruct (use_abuseipdb config); [done | by intros [? ?]].
  - intros ->. by eexists.
  - destruct (use_urlhaus config); [done | by intros [? ?]].
  - intros ->. by eexists.
Qed.

Lemma optional_clients_follow_flags_witness :
  exists h,
    generate_entity_handler dotted_quad sample_environ
      (sample_config_shodan "example.com") (mkConsole false) fresh_world =
    (inr h, fresh_world)
    /\ (is_Some (shodan_client (handler_args h)) <-> true = true)
    /\ (is_Some (greynoise_client (handler_args h)) <-> true = true)
    /\ (is_Some (abuseipdb_client (handler_args h)) <-> false = true)
    /\ (is_Some (urlhaus_client (handler_args h)) <-> true = true).
Proof.
  destruct (optional_clients_follow_flags dotted_quad sample_environ
              (sample_config_shodan "example.com") (mkConsole false)
              fresh_world) as (h & H1 & H2 & H3 & H4 & H5 & _).
  - vm_compute. reflexivity.
  - exists h. repeat split; solve [apply H2 | apply H3 | apply H4 | apply H5
                                   | exact H1].
Defined.

(** C6 as the spec words it fails: with the Shodan, Greynoise and URLhaus
    flags set and no [SHODAN_API_KEY] in the environment, no client is
    handed to any handler; the call raises. *)
Lemma optional_clients_counterexample :
  use_shodan (sample_config_shodan "example.com") = true
  /\ use_greynoise (sample_config_shodan "example.com") = true
  /\ use_urlhaus (sample_config_shodan "example.com") = true
  /\ generate_entity_handler dotted_quad ∅
       (sample_config_shodan "example.com") (mkConsole false) fresh_world =
     (inl (KeyError "SHODAN_API_KEY"), fresh_world)
  /\ ~ (exists h w',
          generate_entity_handler dotted_quad ∅
            (sample_config_shodan "example.com") (mkConsole false) fresh_world =
          (inr h, w')
          /\ (is_Some (greynoise_client (handler_args h)) <->
              use_greynoise (sample_config_shodan "example.com") = true)).
Proof.
  assert (E : generate_entity_handler dotted_quad ∅
                (sample_config_shodan "example.com") (mkConsole false)
                fresh_world =
              (inl (KeyError "SHODAN_API_KEY"), fresh_world))
    by (apply generate_entity_handler_raises; vm_compute; reflexivity).
  split; [reflexivity |]. split; [reflexivity |]. split; [reflexivity |].
  split; [exact E |].
  intros (h & w' & H & _). rewrite E in H. discriminate.
Qed.

(** C10: with the Shodan flag set and no [SHODAN_API_KEY] in the
    environment, [generate_entity_handler] raises [KeyError]; nothing
    catches it, so the run ends in failure before the display is started
    or anything is fetched or printed. *)
Theorem missing_shodan_key_raises is_ip handler_fetch_data environ config :
  use_shodan config = true ->
  environ !! "SHODAN_API_KEY" = None ->
  (forall console w,
     generate_entity_handler is_ip environ config console w =
     (inl (KeyError "SHODAN_API_KEY"), w))
  /\ run_main is_ip handler_fetch_data environ config =
     (inl (KeyError "SHODAN_API_KEY"),
      mkWorld (get_progress (make_console config)) [])
  /\ exit_status (run_main is_ip handler_fetch_data environ config).1 = Failure.
Proof.
  intros Hflag Hkey.
  assert (Hmiss : shodan_key_missing environ config = true).
  { unfold shodan_key_missing. rewrite Hflag, Hkey. done. }
  assert (Hrun : run_main is_ip handler_fetch_data environ config =
                 (inl (KeyError "SHODAN_API_KEY"),
                  mkWorld (get_progress (make_console config)) [])).
  { unfold run_main, main.
    by rewrite (bind_inl _ _ _ _ _
                  (generate_entity_handler_raises is_ip environ config _ _ Hmiss)). }
  split; [| split].
  - intros console w. by apply generate_entity_handler_raises.
  - exact Hrun.
  - by rewrite Hrun.
Qed.

Lemma missing_shodan_key_raises_witness :
  run_main dotted_quad sample_fetch ∅ (sample_config_shodan "example.com") =
  (inl (KeyError "SHODAN_API_KEY"), fresh_world).
Proof.
  refine (proj1 (proj2 (missing_shodan_key_raises dotted_quad sample_fetch ∅
            (sample_config_shodan "example.com") _ _)));
    vm_compute; reflexivity.
Defined.

(** ** Phases *)

(** A tuple closes the phase that is open, then opens a new one: the
    three display calls, in order, and the task the display then holds. *)
Lemma tuple_opens_phase task descr adv w :
  task_known task (prog w) ->
  let n := length (Rich.tasks (prog w)) in
  exists w',
    loop_body task (YTuple descr adv) w = (inr (Some n), w')
    /\ obs w' = obs w ++ finish_obs task ++
                [OProgress (Rich.AddTask descr n);
                 OProgress (Rich.UpdateAdvance n adv)]
    /\ Rich.tasks (prog w') !! n = Some (Rich.mkTask descr 100 adv)
    /\ length (Rich.tasks (prog w')) = S n.
Proof.
  destruct w as [p l]. intros Hk n. simpl in *.
  destruct task as [t|]; simpl in Hk.
  - destruct Hk as [tk Htk].
    pose proof (update_completed_lookup t 100 p tk Htk) as E1.
    set (p1 := Rich.mkProgress
                 (<[t := Rich.mkTask (Rich.description tk) (Rich.total tk) 100]>
                    (Rich.tasks p)) (Rich.live p)) in E1.
    pose proof (add_then_advance p1 descr adv) as E2.
    assert (Hlen : length (Rich.tasks p1) = n)
      by (subst p1; simpl; by rewrite length_insert).
    rewrite Hlen in E2.
    eexists. split; [| split; [| split]].
    + unfold loop_body, _finish_task, mbind, M_bind, bind,
        progress_update_completed, progress_add_task, progress_update_advance,
        mret, M_ret, ret.
      cbn [prog obs]. rewrite E1.
      destruct (Rich.add_task descr p1) as [p2 t2] eqn:Ea.
      assert (t2 = n) as ->
        by (unfold Rich.add_task in Ea; injection Ea as _ <-; exact Hlen).
      cbn [fst prog obs] in *. rewrite Ea. cbn [prog obs]. rewrite E2.
      reflexivity.
    + simpl. by rewrite <- !(assoc_L (++)).
    + simpl. apply list_lookup_middle. subst n p1. simpl.
      by rewrite length_insert.
    + simpl. rewrite length_app. subst n p1. simpl.
      rewrite length_insert. lia.
  - pose proof (add_then_advance p descr adv) as E2. fold n in E2.
    eexists. split; [| split; [| split]].
    + unfold loop_body, _finish_task, mbind, M_bind, bind,
        progress_add_task, progress_update_advance, mret, M_ret, ret.
      cbn [prog obs].
      destruct (Rich.add_task descr p) as [p2 t2] eqn:Ea.
      assert (t2 = n) as ->
        by (unfold Rich.add_task in Ea; by injection Ea as _ <-).
      cbn [fst prog obs] in *. rewrite ?Ea. cbn [prog obs]. rewrite E2.
      reflexivity.
    + simpl. by rewrite <- !(assoc_L (++)).
    + simpl. by rewrite list_lookup_middle.
    + simpl. rewrite length_app. simpl. lia.
Qed.

(** C3: a fetch pass whose generator is exhausted without an exception
    returns normally, and over the pass the number of force-completions
    equals the number of opened phases, one per yielded tuple; every task
    the pass has put on the display stands at 100 of 100.  Each tuple
    first force-completes the phase still open, and the last phase is
    closed by [fetch_data] itself after the loop. *)
Theorem every_opened_phase_is_completed run w :
  ending run = Exhausted ->
  exists w' tr,
    fetch_data run w = (inr tt, w')
    /\ obs w' = obs w ++ tr
    /\ count is_open tr = tuples (yielded run)
    /\ count is_force tr = count is_open tr
    /\ length (Rich.tasks (prog w')) =
       length (Rich.tasks (prog w)) + count is_open tr
    /\ (forall i tk,
          Rich.tasks (prog w') !! i = Some tk ->
          length (Rich.tasks (prog w)) <= i ->
          Rich.completed tk = 100%Z /\ Rich.finished tk = true)
    /\ (forall t descr adv w1,
          is_Some (Rich.tasks (prog w1) !! t) ->
          exists w2,
            loop_body (Some t) (YTuple descr adv) w1 =
            (inr (Some (length (Rich.tasks (prog w1)))), w2)
            /\ obs w2 = obs w1 ++
                 [OProgress (Rich.UpdateCompleted t 100);
                  OProgress (Rich.AddTask descr (length (Rich.tasks (prog w1))));
                  OProgress (Rich.UpdateAdvance
                               (length (Rich.tasks (prog w1))) adv)]).
Proof.
  intros Hend.
  destruct (fetch_data_exhausted run w Hend) as (p & tr & E & Hcl & Hc).
  destruct Hcl as [Hop Hfo Hdone Hfresh Hpr].
  eexists _, ([OProgress Rich.Start] ++ tr ++ [OProgress Rich.Stop]).
  split; [exact E |].
  assert (Hcount : forall f, f (OProgress Rich.Start) = false ->
                             f (OProgress Rich.Stop) = false ->
            count f ([OProgress Rich.Start] ++ tr ++ [OProgress Rich.Stop])
            = count f tr).
  { intros f H1 H2. rewrite !count_app. simpl. rewrite H1, H2. lia. }
  rewrite !Hcount by done. simpl prog. simpl obs.
  split; [done |]. split; [done |]. split; [done |].
  split; [simpl; lia |].
  split.
  - simpl. intros i tk Hi Hn0. destruct (Hdone i tk Hi Hn0) as [Hc100 Ht100].
    split; [done |]. unfold Rich.finished. rewrite Hc100, Ht100. done.
  - intros t descr adv w1 Hk.
    destruct (tuple_opens_phase (Some t) descr adv w1 Hk) as (w2 & E2 & O2 & _).
    exists w2. split; [exact E2 | exact O2].
Qed.

Lemma every_opened_phase_is_completed_witness :
  exists w' tr,
    fetch_data sample_ip_run fresh_world = (inr tt, w')
    /\ obs w' = obs fresh_world ++ tr
    /\ count is_open tr = 2
    /\ count is_force tr = count is_open tr.
Proof.
  destruct (every_opened_phase_is_completed sample_ip_run fresh_world)
    as (w' & tr & H1 & H2 & H3 & H4 & _).
  - reflexivity.
  - exists w', tr. repeat split; [exact H1 | exact H2 | exact H3 | exact H4].
Defined.

(** C4, as the code has it: the integer of a [(label, weight)] tuple is
    applied to the newly opened task as a first advance of its completed
    counter; the task is added with the display's default total of 100,
    whatever the weight. *)
Theorem phase_weight_is_first_advance task descr adv w :
  task_known task (prog w) ->
  exists w',
    loop_body task (YTuple descr adv) w =
    (inr (Some (length (Rich.tasks (prog w)))), w')
    /\ Rich.tasks (prog w') !! length (Rich.tasks (prog w)) =
       Some (Rich.mkTask descr Rich.default_total adv)
    /\ obs w' = obs w ++ finish_obs task ++
                [OProgress (Rich.AddTask descr (length (Rich.tasks (prog w))));
                 OProgress (Rich.UpdateAdvance
                              (length (Rich.tasks (prog w))) adv)].
Proof.
  intros Hk.
  destruct (tuple_opens_phase task descr adv w Hk) as (w' & E & O & T & _).
  exists w'. split; [exact E |]. split; [exact T | exact O].
Qed.

Lemma phase_weight_is_first_advance_witness :
  exists w',
    loop_body None (YTuple "Fetching data from Virustotal" 30) fresh_world =
    (inr (Some 0), w')
    /\ Rich.tasks (prog w') !! 0 =
       Some (Rich.mkTask "Fetching data from Virustotal" 100 30).
Proof.
  destruct (phase_weight_is_first_advance None
              "Fetching data from Virustotal" 30 fresh_world)
    as (w' & H1 & H2 & _).
  - exact I.
  - exists w'. split; [exact H1 | exact H2].
Defined.

(** C4 as the spec words it fails: after the tuple
    [("Fetching data from Virustotal", 30)] the new phase expects 100
    units in total, not 30; 30 is what it shows as already completed. *)
Lemma phase_weight_counterexample :
  exists w' tk,
    loop_body None (YTuple "Fetching data from Virustotal" 30) fresh_world =
    (inr (Some 0), w')
    /\ Rich.tasks (prog w') !! 0 = Some tk
    /\ Rich.total tk <> 30%Z
    /\ Rich.total tk = 100%Z
    /\ Rich.completed tk = 30%Z.
Proof.
  eexists _, _. split; [reflexivity |]. split; [reflexivity |].
  split; [discriminate |]. split; reflexivity.
Qed.

(** ** Failures during the fetch pass *)

(** C9: an int yielded while no phase is open is dropped: the loop
    iteration changes nothing and raises nothing, and the pass goes on as
    if the int had not been yielded.  When the generator raises a
    [HandlerException], the phase then open (the last task of the display)
    is not force-completed: the trace of the pass has no
    [update(task, completed=...)] for it, and one force-completion fewer
    than opened phases. *)
Theorem stray_int_dropped_and_open_phase_left run w msg :
  ending run = Raises (HandlerException msg) ->
  (forall n w1, loop_body None (YInt n) w1 = (inr None, w1))
  /\ (forall n xs e got res w1,
        fetch_data (mkGenRun (YInt n :: xs) e got res) w1 =
        fetch_data (mkGenRun xs e got res) w1)
  /\ exists p task tr,
       fetch_data run w =
       (inl (ProcessExit Failure),
        mkWorld p (obs w ++ [OProgress Rich.Start] ++ tr ++
                   [OProgress Rich.Stop; OError msg; OProgress Rich.Stop]))
       /\ count is_open tr = tuples (yielded run)
       /\ match task with
          | Some t =>
              S t = length (Rich.tasks p)
              /\ (forall n, OProgress (Rich.UpdateCompleted t n) ∉ tr)
              /\ count is_force tr + 1 = count is_open tr
          | None => tr = []
          end.
Proof.
  intros Hend. split; [done |]. split; [done |].
  destruct (fetch_data_handler_exception run w msg Hend)
    as (p & task & tr & E & Hinv & Hc).
  exists (Rich.stop (Rich.stop p)), task, tr.
  split; [exact E |]. split; [exact Hc |].
  destruct task as [t|]; simpl in Hinv.
  - destruct Hinv as [Hcur _ _ Hfo _ _ Hfresh _].
    split; [exact Hcur |]. split; [| exact Hfo].
    intros n Hin. apply Hfresh in Hin. lia.
  - by destruct Hinv.
Qed.

Lemma stray_int_dropped_and_open_phase_left_witness :
  exists p task tr,
    fetch_data sample_failing_run fresh_world =
    (inl (ProcessExit Failure),
     mkWorld p ([] ++ [OProgress Rich.Start] ++ tr ++
                [OProgress Rich.Stop; OError "Error fetching data: 401";
                 OProgress Rich.Stop]))
    /\ count is_open tr = 1
    /\ match task with
       | Some t =>
           S t = length (Rich.tasks p)
           /\ (forall n, OProgress (Rich.UpdateCompleted t n) ∉ tr)
           /\ count is_force tr + 1 = count is_open tr
       | None => tr = []
       end.
Proof.
  refine (proj2 (proj2 (stray_int_dropped_and_open_phase_left
            sample_failing_run fresh_world "Error fetching data: 401" _))).
  reflexivity.
Defined.

(** ** The whole run *)

Lemma main_eq is_ip handler_fetch_data environ config w :
  main is_ip handler_fetch_data environ config w =
  (h ← generate_entity_handler is_ip environ config (make_console config);
   fetch_data (handler_fetch_data h);;
   print_warnings (absorb (handler_fetch_data h) h);;
   view ← generate_view config (make_console config)
            (absorb (handler_fetch_data h) h);
   view_print view (one_column config)) w.
Proof. reflexivity. Qed.

Lemma absorb_got run h : handler_got (absorb run h) = fetched run.
Proof. by destruct h. Qed.

Lemma count_view_progress tr :
  forallb is_progress tr = true -> count is_view_obs tr = 0.
Proof. apply count_zero_of_progress. by intros []. Qed.

(** C1: when the handler's generator raises a [HandlerException], the
    display is stopped, then the message of the exception is shown, and
    the process exits with a failure status; the run builds no view and
    prints no report. *)
Theorem mandatory_failure_is_fatal
    is_ip handler_fetch_data environ config h msg :
  (generate_entity_handler is_ip environ config (make_console config)
     (mkWorld (get_progress (make_console config)) [])).1 = inr h ->
  ending (handler_fetch_data h) = Raises (HandlerException msg) ->
  exists p tr,
    run_main is_ip handler_fetch_data environ config =
    (inl (ProcessExit Failure),
     mkWorld p ([OProgress Rich.Start] ++ tr ++
                [OProgress Rich.Stop; OError msg; OProgress Rich.Stop]))
    /\ forallb is_progress tr = true
    /\ Rich.live p = false
    /\ exit_status (run_main is_ip handler_fetch_data environ config).1 = Failure
    /\ count is_view_obs
         (obs (run_main is_ip handler_fetch_data environ config).2) = 0.
Proof.
  intros Hh Hend.
  destruct (generate_entity_handler _ _ _ _ _) as [r w1] eqn:Eh.
  simpl in Hh. subst r.
  pose proof (generate_entity_handler_inr _ _ _ _ _ _ _ Eh) as [-> _].
  destruct (fetch_data_handler_exception _
              (mkWorld (get_progress (make_console config)) []) msg Hend)
    as (p & task & tr & E & Hinv & _).
  pose proof (loopinv_progress _ _ _ _ Hinv) as Hpr.
  assert (Hrun : run_main is_ip handler_fetch_data environ config =
                 (inl (ProcessExit Failure),
                  mkWorld (Rich.stop (Rich.stop p))
                    ([OProgress Rich.Start] ++ tr ++
                     [OProgress Rich.Stop; OError msg; OProgress Rich.Stop]))).
  { unfold run_main. rewrite main_eq.
    rewrite (bind_inr _ _ _ _ _ Eh). by rewrite (bind_inl _ _ _ _ _ E). }
  exists (Rich.stop (Rich.stop p)), tr.
  split; [exact Hrun |]. split; [exact Hpr |]. split; [done |].
  rewrite Hrun. split; [done |].
  simpl. rewrite count_app, (count_view_progress tr Hpr). done.
Qed.

Lemma mandatory_failure_is_fatal_witness :
  exists p tr,
    run_main dotted_quad (fun _ => sample_failing_run) ∅
      (sample_config "example.com") =
    (inl (ProcessExit Failure),
     mkWorld p ([OProgress Rich.Start] ++ tr ++
                [OProgress Rich.Stop; OError "Error fetching data: 401";
                 OProgress Rich.Stop])).
Proof.
  destruct (mandatory_failure_is_fatal dotted_quad (fun _ => sample_failing_run)
              ∅ (sample_config "example.com") sample_domain_handler
              "Error fetching data: 401") as (p & tr & H & _).
  - reflexivity.
  - reflexivity.
  - exists p, tr. exact H.
Defined.

Lemma generate_view_value config console h w w' :
  (generate_view config console h w).1 = (generate_view config console h w').1.
Proof. destruct h as [a m g r | a g]; simpl; by destruct (vt_info g). Qed.

(** C7: [generate_view] returns a domain view exactly when the handler is
    a [DomainHandler] whose [vt_info] is a [Domain], an IP address view
    exactly when it is an [IpAddressHandler] whose [vt_info] is an
    [IpAddress], each built from the handler's result fields; in every
    other combination it raises [WtfisException("Unsupported entity!")]
    and leaves the world as it found it: no view is built and nothing is
    printed. *)
Theorem generate_view_by_handler_and_shape config console h w :
  ((exists v, (generate_view config console h w).1 = inr v
              /\ is_domain_view v = true)
   <-> domain_case h = true)
  /\ ((exists v, (generate_view config console h w).1 = inr v
                 /\ is_ip_view v = true)
      <-> ip_case h = true)
  /\ (forall v, (generate_view config console h w).1 = inr v ->
        (generate_view config console h w).2 =
        mkWorld (prog w) (obs w ++ [OView v])
        /\ (is_domain_view v = true \/ is_ip_view v = true))
  /\ ((domain_case h || ip_case h) = false <->
      generate_view config console h w =
      (inl (WtfisException "Unsupported entity!"), w))
  /\ (forall a m got res d,
        h = DomainHandler a m got res -> vt_info got = Domain d ->
        (generate_view config console h w).1 =
        inr (DomainView console d (geoasn got) (whois got) (shodan got)
               (greynoise got) (abuseipdb got) (urlhaus got) res
               (max_resolutions config)))
  /\ (forall a got d,
        h = IpAddressHandler a got -> vt_info got = IpAddress d ->
        (generate_view config console h w).1 =
        inr (IpAddressView console d (geoasn got) (whois got) (shodan got)
               (greynoise got) (abuseipdb got) (urlhaus got))).
Proof.
  split; [| split; [| split; [| split; [| split]]]].
  - destruct (generate_view_cases config console h w)
      as [(v & E & Hd & Hi & _) | (E & Hd & Hi)]; rewrite E; simpl.
    + split.
      * intros (v' & [= <-] & Hv). by rewrite <- Hd.
      * intros Hc. exists v. by rewrite Hd.
    + split; [by intros (v' & ? & _) | by rewrite Hd].
  - destruct (generate_view_cases config console h w)
      as [(v & E & Hd & Hi & _) | (E & Hd & Hi)]; rewrite E; simpl.
    + split.
      * intros (v' & [= <-] & Hv). by rewrite <- Hi.
      * intros Hc. exists v. by rewrite Hi.
    + split; [by intros (v' & ? & _) | by rewrite Hi].
  - intros v0.
    destruct (generate_view_cases config console h w)
      as [(v & E & Hd & Hi & Hor) | (E & Hd & Hi)]; rewrite E; simpl.
    + intros [= <-]. split; [done |].
      rewrite Hd, Hi. by apply orb_true_iff.
    + discriminate.
  - destruct (generate_view_cases config console h w)
      as [(v & E & Hd & Hi & Hor) | (E & Hd & Hi)]; rewrite E.
    + rewrite Hor. split; discriminate.
    + rewrite Hd, Hi. done.
  - intros a m got res d -> Hvt. simpl. by rewrite Hvt.
  - intros a got d -> Hvt. simpl. by rewrite Hvt.
Qed.

(** C8: a run that ends in success went through, in this order, the fetch
    pass (all of it display calls, closed by the display's stop), the
    warnings of the handler, one diagnostic each, the construction of the
    view and the report printed from that view with the configured
    layout.  Printing warnings always returns normally, whatever the
    warnings, and the exit status of the run is success. *)
Theorem successful_run_order is_ip handler_fetch_data environ config :
  (run_main is_ip handler_fetch_data environ config).1 = inr tt ->
  exists h view p tr,
    generate_entity_handler is_ip environ config (make_console config)
      (mkWorld (get_progress (make_console config)) []) =
    (inr h, mkWorld (get_progress (make_console config)) [])
    /\ ending (handler_fetch_data h) = Exhausted
    /\ run_main is_ip handler_fetch_data environ config =
       (inr tt,
        mkWorld p
          ([OProgress Rich.Start] ++ tr ++ [OProgress Rich.Stop] ++
           map OWarning (warnings (fetched (handler_fetch_data h))) ++
           [OView view; OReport view (one_column config)]))
    /\ forallb is_progress tr = true
    /\ count is_force tr = count is_open tr
    /\ (generate_view config (make_console config)
          (absorb (handler_fetch_data h) h) (mkWorld p [])).1 = inr view
    /\ exit_status (run_main is_ip handler_fetch_data environ config).1 = Success
    /\ (forall h' w', (print_warnings h' w').1 = inr tt).
Proof.
  intros Hok. unfold run_main in *. rewrite main_eq in *.
  set (w0 := mkWorld (get_progress (make_console config)) []) in *.
  destruct (shodan_key_missing environ config) eqn:Hmiss.
  { rewrite (bind_inl _ _ _ _ _
               (generate_entity_handler_raises is_ip environ config _ w0 Hmiss))
      in Hok. discriminate. }
  destruct (generate_entity_handler_returns is_ip environ config
              (make_console config) w0 Hmiss) as [h Eh].
  rewrite (bind_inr _ _ _ _ _ Eh) in Hok |- *.
  destruct (ending (handler_fetch_data h)) as [|e] eqn:Hend.
  2:{ destruct (is_handler_exception e) eqn:He.
      - destruct e; try discriminate.
        destruct (fetch_data_handler_exception _ w0 _ Hend)
          as (p & task & tr & E & _).
        rewrite (bind_inl _ _ _ _ _ E) in Hok. discriminate.
      - destruct (fetch_data_other_exception _ w0 _ Hend He)
          as (p & task & tr & E & _).
        rewrite (bind_inl _ _ _ _ _ E) in Hok. discriminate. }
  destruct (fetch_data_exhausted _ w0 Hend) as (p & tr & E & Hcl & _).
  rewrite (bind_inr _ _ _ _ _ E) in Hok |- *.
  rewrite (bind_inr _ _ _ _ _ (print_warnings_trace _ _)) in Hok |- *.
  rewrite absorb_got in Hok |- *. simpl prog in *. simpl obs in *.
  match type of Hok with
  | context [(generate_view ?c ?k ?hh ≫= _) ?ww] =>
      destruct (generate_view_cases c k hh ww)
        as [(v & Ev & _) | (Ev & _)];
      [| rewrite (bind_inl _ _ _ _ _ Ev) in Hok; discriminate]
  end.
  rewrite (bind_inr _ _ _ _ _ Ev).
  exists h, v, (Rich.stop p), tr.
  split; [done |]. split; [done |]. split.
  { unfold view_print, emit. simpl. by rewrite <- !(assoc_L (++)). }
  split; [exact (cl_progress _ _ _ Hcl) |].
  split; [exact (cl_forced _ _ _ Hcl) |].
  split.
  { match type of Ev with
    | generate_view _ _ _ ?ww = _ =>
        rewrite (generate_view_value config (make_console config) _ _ ww), Ev
    end. done. }
  split; [done |].
  intros h' w'. by rewrite print_warnings_trace.
Qed.

Lemma successful_run_order_witness :
  exists h view p tr,
    run_main dotted_quad sample_fetch sample_environ
      (sample_config_shodan "example.com") =
    (inr tt,
     mkWorld p
       ([OProgress Rich.Start] ++ tr ++ [OProgress Rich.Stop] ++
        map OWarning (warnings (fetched (sample_fetch h))) ++
        [OView view; OReport view true])).
Proof.
  destruct (successful_run_order dotted_quad sample_fetch sample_environ
              (sample_config_shodan "example.com"))
    as (h & view & p & tr & _ & _ & H & _).
  - vm_compute. reflexivity.
  - exists h, view, p, tr. exact H.
Defined.

(** ** Scenarios *)

(** A public IP address with no optional provider configured: the IP
    handler is built, the run succeeds with no warning and an IP report
    whose optional sections are empty. *)
Example scenario_public_ip :
  generate_entity_handler dotted_quad ∅ (sample_config "93.184.216.34")
    (mkConsole false) fresh_world = (inr sample_ip_handler, fresh_world)
  /\ (run_main dotted_quad sample_fetch ∅ (sample_config "93.184.216.34")).1
     = inr tt
  /\ count (fun o => match o with OWarning _ => true | _ => false end)
       (obs (run_main dotted_quad sample_fetch ∅
               (sample_config "93.184.216.34")).2) = 0
  /\ last (obs (run_main dotted_quad sample_fetch ∅
                  (sample_config "93.184.216.34")).2)
     = Some (OReport
               (IpAddressView (mkConsole false) "93.184.216.34" (Some "geo")
                  (Some "whois") None None None None) false).
Proof. vm_compute. repeat split. Qed.

(** A domain with optional providers configured, one of which failed
    during the fetch: one warning, shown before the domain report. *)
Example scenario_domain_with_warning :
  generate_entity_handler dotted_quad sample_environ
    (sample_config_shodan "example.com") (mkConsole false) fresh_world
  = (inr sample_shodan_handler, fresh_world)
  /\ drop 11 (obs (run_main dotted_quad sample_fetch sample_environ
                     (sample_config_shodan "example.com")).2)
     = [OWarning "Could not fetch Greynoise: 503";
        OView (DomainView (mkConsole false) "example.com" (Some "geo")
                 (Some "whois") None None None None (Some "resolutions") 3);
        OReport (DomainView (mkConsole false) "example.com" (Some "geo")
                   (Some "whois") None None None None (Some "resolutions") 3)
                true].
Proof. vm_compute. repeat split. Qed.

(** A domain handler whose core result came back IP-shaped: the run ends
    with the uncaught "Unsupported entity!" error, after the fetch pass and
    with no view built and no report printed. *)
Example scenario_mismatch :
  (run_main dotted_quad (fun _ => sample_mismatch_run) ∅
     (sample_config "example.com")).1
  = inl (WtfisException "Unsupported entity!")
  /\ count is_view_obs
       (obs (run_main dotted_quad (fun _ => sample_mismatch_run) ∅
               (sample_config "example.com")).2) = 0
  /\ exit_status (run_main dotted_quad (fun _ => sample_mismatch_run) ∅
                    (sample_config "example.com")).1 = Failure.
Proof. vm_compute. repeat split. Qed.

(** The sample classifier on the entities of the scenarios. *)
Example dotted_quad_samples :
  dotted_quad "93.184.216.34" = true /\ dotted_quad "10.0.0.5" = true
  /\ dotted_quad "example.com" = false /\ dotted_quad "256.1.1.1" = false
  /\ dotted_quad "1.2.3" = false.
Proof. repeat split. Qed.

(** * More of the entry point *)

(** ** How [fetch_data] ends *)


(** X2: however [fetch_data] is left, the [with] block has started the
    display first and stopped it last: what the pass adds to the trace
    begins with the start and ends with a stop, and the display is not
    live afterwards. *)
Theorem fetch_data_brackets_display run w :
  exists mid,
    obs (fetch_data run w).2 =
    obs w ++ OProgress Rich.Start :: mid ++ [OProgress Rich.Stop]
    /\ Rich.live (prog (fetch_data run w).2) = false.
Proof.
  destruct (ending run) as [|e] eqn:Hend.
  - destruct (fetch_data_exhausted run w Hend) as (p & tr & E & _).
    exists tr. by rewrite E.
  - destruct (is_handler_exception e) eqn:He.
    + destruct e; try discriminate.
      destruct (fetch_data_handler_exception run w _ Hend) as (p & t & tr & E & _).
      exists (tr ++ [OProgress Rich.Stop; OError msg]). rewrite E. simpl.
      split; [| done]. by rewrite <- !(assoc_L (++)).
    + destruct (fetch_data_other_exception run w e Hend He)
        as (p & t & tr & E & _).
      exists tr. by rewrite E.
Qed.



(** ** What the loop ignores *)

Lemma fetch_data_ext xs xs' e got res got' res' w :
  (forall w1, for_loop None xs e w1 = for_loop None xs' e w1) ->
  fetch_data (mkGenRun xs e got res) w = fetch_data (mkGenRun xs' e got' res') w.
Proof.
  intros H.
  unfold fetch_data, finally, try_except, mbind, M_bind, bind, progress_start.
  simpl. by rewrite H.
Qed.

Lemma for_loop_cons task x xs e w :
  for_loop task (x :: xs) e w =
  match loop_body task x w with
  | (inl ex, w1) => (inl ex, w1)
  | (inr task1, w1) => for_loop task1 xs e w1
  end.
Proof. reflexivity. Qed.

Lemma for_loop_skip_untupled pre xs e w :
  forallb (fun x => negb (is_tuple x)) pre = true ->
  for_loop None (pre ++ xs) e w = for_loop None xs e w.
Proof.
  induction pre as [|x pre IH]; simpl app; [done |].
  intros [Hx Hpre]%andb_true_iff.
  rewrite for_loop_cons.
  destruct x; [discriminate | |]; simpl; by apply IH.
Qed.

(** X4: whatever is yielded before the first tuple is ignored, ints
    included, however many: the pass is the pass of the rest of the
    sequence, call for call. *)
Theorem yields_before_first_tuple_ignored pre xs e got res w :
  forallb (fun x => negb (is_tuple x)) pre = true ->
  fetch_data (mkGenRun (pre ++ xs) e got res) w =
  fetch_data (mkGenRun xs e got res) w.
Proof.
  intros Hpre. apply fetch_data_ext. intros w1.
  by apply for_loop_skip_untupled.
Qed.

Lemma yields_before_first_tuple_ignored_witness :
  fetch_data
    (mkGenRun ([YInt 5; YOther; YInt 7] ++ [YTuple "Fetching IP enrichments" 0])
       Exhausted unfetched None) fresh_world =
  fetch_data
    (mkGenRun [YTuple "Fetching IP enrichments" 0] Exhausted unfetched None)
    fresh_world.
Proof.
  apply (yields_before_first_tuple_ignored [YInt 5; YOther; YInt 7]
           [YTuple "Fetching IP enrichments" 0] Exhausted unfetched None
           fresh_world).
  reflexivity.
Defined.

Lemma for_loop_filter_other xs e : forall task w,
  for_loop task (List.filter (fun x => negb (is_other x)) xs) e w =
  for_loop task xs e w.
Proof.
  induction xs as [|x xs IH]; intros task w; [done |].
  destruct x as [descr adv | n |]; simpl List.filter.
  - rewrite !for_loop_cons.
    destruct (loop_body task (YTuple descr adv) w) as [[ex|task1] w1];
      [done | apply IH].
  - rewrite !for_loop_cons.
    destruct (loop_body task (YInt n) w) as [[ex|task1] w1];
      [done | apply IH].
  - rewrite for_loop_cons. simpl. apply IH.
Qed.

(** X5: an object that is neither a tuple nor an int is skipped wherever
    it occurs in the sequence, before, between or after phases: the pass
    is the pass of the sequence without those objects. *)
Theorem other_objects_skipped xs e got res w :
  fetch_data (mkGenRun xs e got res) w =
  fetch_data
    (mkGenRun (List.filter (fun x => negb (is_other x)) xs) e got res) w.
Proof.
  apply fetch_data_ext. intros w1. symmetry. apply for_loop_filter_other.
Qed.

(** ** The loop, call by call *)

Lemma int_step t n p l tk :
  Rich.tasks p !! t = Some tk ->
  loop_body (Some t) (YInt n) (mkWorld p l) =
  (inr (Some t),
   mkWorld (Rich.mkProgress
              (<[t := Rich.mkTask (Rich.description tk) (Rich.total tk)
                                  (Rich.completed tk + n)]> (Rich.tasks p))
              (Rich.live p))
           (l ++ [OProgress (Rich.UpdateAdvance t n)])).
Proof.
  intros Htk.
  unfold loop_body, mbind, M_bind, bind, progress_update_advance, mret, M_ret, ret.
  cbn [prog obs]. by rewrite (update_advance_lookup _ _ _ _ Htk).
Qed.

Lemma tuple_step_none descr adv p l :
  loop_body None (YTuple descr adv) (mkWorld p l) =
  (inr (Some (length (Rich.tasks p))),
   mkWorld (Rich.mkProgress (Rich.tasks p ++ [Rich.mkTask descr 100 adv])
                            (Rich.live p))
           (l ++ [OProgress (Rich.AddTask descr (length (Rich.tasks p)));
                  OProgress (Rich.UpdateAdvance (length (Rich.tasks p)) adv)])).
Proof.
  pose proof (add_then_advance p descr adv) as E2.
  unfold loop_body, _finish_task, mbind, M_bind, bind,
    progress_add_task, progress_update_advance, mret, M_ret, ret.
  cbn [prog obs].
  destruct (Rich.add_task descr p) as [p2 t2] eqn:Ea.
  assert (t2 = length (Rich.tasks p)) as ->
    by (unfold Rich.add_task in Ea; by injection Ea as _ <-).
  cbn [fst prog obs] in *. rewrite E2. by rewrite <- !(assoc_L (++)).
Qed.

Lemma tuple_step_some t descr adv p l tk :
  Rich.tasks p !! t = Some tk ->
  loop_body (Some t) (YTuple descr adv) (mkWorld p l) =
  (inr (Some (length (Rich.tasks p))),
   mkWorld (Rich.mkProgress
              (<[t := Rich.mkTask (Rich.description tk) (Rich.total tk) 100]>
                 (Rich.tasks p) ++ [Rich.mkTask descr 100 adv])
              (Rich.live p))
           (l ++ [OProgress (Rich.UpdateCompleted t 100);
                  OProgress (Rich.AddTask descr (length (Rich.tasks p)));
                  OProgress (Rich.UpdateAdvance (length (Rich.tasks p)) adv)])).
Proof.
  intros Htk.
  pose proof (tuple_step_none descr adv
                (Rich.mkProgress
                   (<[t := Rich.mkTask (Rich.description tk) (Rich.total tk) 100]>
                      (Rich.tasks p)) (Rich.live p))
                (l ++ [OProgress (Rich.UpdateCompleted t 100)])) as E.
  cbn [Rich.tasks Rich.live] in E. rewrite length_insert in E.
  rewrite <- (assoc_L (++)) in E. simpl app in E. rewrite <- E.
  unfold loop_body at 1. unfold _finish_task at 1.
  unfold mbind at 1, M_bind at 1, bind at 1.
  unfold progress_update_completed. cbn [prog obs].
  rewrite (update_completed_lookup _ _ _ _ Htk). reflexivity.
Qed.

Lemma ints_accumulate e ns : forall p l t tk,
  Rich.tasks p !! t = Some tk ->
  exists p' l',
    for_loop (Some t) (map YInt ns) e (mkWorld p l) =
    (match e with Exhausted => inr (Some t) | Raises ex => inl ex end,
     mkWorld p' l')
    /\ Rich.tasks p' !! t =
       Some (Rich.mkTask (Rich.description tk) (Rich.total tk)
                         (Rich.completed tk + sumZ ns))
    /\ length (Rich.tasks p') = length (Rich.tasks p).
Proof.
  induction ns as [|n ns IH]; intros p l t tk Htk.
  - exists p, l. simpl. split; [by destruct e |]. split; [| done].
    rewrite Z.add_0_r. by destruct tk.
  - simpl map. rewrite for_loop_cons, (int_step _ _ _ _ _ Htk).
    assert (Hlt : t < length (Rich.tasks p)) by (by apply lookup_lt_Some in Htk).
    edestruct (IH (Rich.mkProgress
                     (<[t := Rich.mkTask (Rich.description tk) (Rich.total tk)
                                         (Rich.completed tk + n)]> (Rich.tasks p))
                     (Rich.live p))
                  (l ++ [OProgress (Rich.UpdateAdvance t n)]) t)
      as (p' & l' & E & Hlook & Hlen).
    { simpl. by apply list_lookup_insert_eq. }
    exists p', l'. split; [exact E |]. simpl in Hlook, Hlen.
    rewrite length_insert in Hlen. split; [| exact Hlen].
    rewrite Hlook. do 2 f_equal. simpl. lia.
Qed.

(** X6: the advances of a phase add up.  After a tuple [(label, adv)]
    and any number of ints, the phase just opened stands at [adv] plus
    the sum of the ints, out of the default 100: nothing clamps the
    counter to the total, and a negative int takes progress back.  This
    is so whether the generator then is exhausted or raises. *)
Theorem advances_accumulate e task descr adv ns w :
  task_known task (prog w) ->
  exists w',
    for_loop task (YTuple descr adv :: map YInt ns) e w =
    (match e with
     | Exhausted => inr (Some (length (Rich.tasks (prog w))))
     | Raises ex => inl ex
     end, w')
    /\ Rich.tasks (prog w') !! length (Rich.tasks (prog w)) =
       Some (Rich.mkTask descr Rich.default_total (adv + sumZ ns)).
Proof.
  intros Hk. destruct w as [p l]. cbn [prog] in *.
  rewrite for_loop_cons.
  set (new := Rich.mkTask descr 100 adv).
  assert (Hstep : exists p1 l1,
             loop_body task (YTuple descr adv) (mkWorld p l) =
             (inr (Some (length (Rich.tasks p))), mkWorld p1 l1)
             /\ Rich.tasks p1 !! length (Rich.tasks p) = Some new).
  { destruct task as [t|]; simpl in Hk.
    - destruct Hk as [tk Htk]. eexists _, _.
      split; [exact (tuple_step_some _ _ _ _ _ _ Htk) |].
      simpl. apply list_lookup_middle. by rewrite length_insert.
    - eexists _, _. split; [exact (tuple_step_none _ _ _ _) |].
      simpl. by apply list_lookup_middle. }
  destruct Hstep as (p1 & l1 & E1 & Hnew). rewrite E1.
  destruct (ints_accumulate e ns p1 l1 _ new Hnew) as (p' & l' & E & Hlook & _).
  exists (mkWorld p' l'). split; [exact E | exact Hlook].
Qed.

Lemma advances_accumulate_witness :
  exists w',
    for_loop None (YTuple "Fetching data from Virustotal" 10
                   :: map YInt [50; 70; -5]%Z) Exhausted fresh_world =
    (inr (Some 0), w')
    /\ Rich.tasks (prog w') !! 0 =
       Some (Rich.mkTask "Fetching data from Virustotal" 100 125).
Proof.
  destruct (advances_accumulate Exhausted None "Fetching data from Virustotal"
              10 [50; 70; -5]%Z fresh_world) as (w' & H1 & H2).
  - exact I.
  - exists w'. split; [exact H1 | exact H2].
Defined.

(** ** What the pass leaves on the display *)

Lemma frame_insert n0 pre ls p t tk x live' :
  n0 <= t ->
  Rich.tasks p !! t = Some tk ->
  Rich.description x = Rich.description tk ->
  Frame n0 pre ls p ->
  Frame n0 pre ls (Rich.mkProgress (<[t := x]> (Rich.tasks p)) live').
Proof.
  intros Ht Htk Hd (Hpre & Hls & Hlen). unfold Frame. simpl.
  rewrite take_insert_ge by done. rewrite length_insert.
  split; [done |]. split; [| done].
  rewrite list_fmap_insert, Hd, list_insert_id; [done |].
  by rewrite list_lookup_fmap, Htk.
Qed.

Lemma frame_append n0 pre ls p x live' :
  Frame n0 pre ls p ->
  Frame n0 pre (ls ++ [Rich.description x])
        (Rich.mkProgress (Rich.tasks p ++ [x]) live').
Proof.
  intros (Hpre & Hls & Hlen). unfold Frame. simpl.
  rewrite take_app_le by done. rewrite fmap_app, length_app. simpl.
  rewrite drop_app_le by (by rewrite length_fmap).
  rewrite Hls. split; [done |]. split; [done | lia].
Qed.

Lemma frame_initial p : Frame (length (Rich.tasks p)) (Rich.tasks p) [] p.
Proof.
  unfold Frame. rewrite take_ge by done.
  rewrite drop_ge by (by rewrite length_fmap). done.
Qed.

Lemma labels_cons x xs : labels (x :: xs) = labels [x] ++ labels xs.
Proof. by destruct x. Qed.

Lemma loop_body_frame n0 pre ls task x p l :
  own_task n0 task p ->
  Frame n0 pre ls p ->
  exists task' p' l',
    loop_body task x (mkWorld p l) = (inr task', mkWorld p' l')
    /\ own_task n0 task' p'
    /\ Frame n0 pre (ls ++ labels [x]) p'.
Proof.
  intros Hown Hfr. destruct x as [descr adv | n |].
  - destruct task as [t|]; simpl in Hown.
    + destruct Hown as [Ht [tk Htk]]. eexists _, _, _.
      split; [exact (tuple_step_some _ _ _ _ _ _ Htk) |].
      pose proof (frame_insert n0 pre ls p t tk
                    (Rich.mkTask (Rich.description tk) (Rich.total tk) 100)
                    (Rich.live p) Ht Htk eq_refl Hfr) as Hfr1.
      split.
      * simpl. destruct Hfr as (_ & _ & Hlen). split; [done |].
        rewrite list_lookup_middle by (by rewrite length_insert). by eexists.
      * exact (frame_append n0 pre ls _ (Rich.mkTask descr 100 adv)
                 (Rich.live p) Hfr1).
    + eexists _, _, _. split; [exact (tuple_step_none _ _ _ _) |].
      split.
      * simpl. destruct Hfr as (_ & _ & Hlen). split; [done |].
        rewrite list_lookup_middle by done. by eexists.
      * destruct p as [ts lv].
        exact (frame_append n0 pre ls _ (Rich.mkTask descr 100 adv) lv Hfr).
  - simpl labels. rewrite app_nil_r. destruct task as [t|]; simpl in Hown.
    + destruct Hown as [Ht [tk Htk]]. eexists _, _, _.
      split; [exact (int_step _ _ _ _ _ Htk) |].
      split.
      * simpl. split; [done |]. apply lookup_lt_is_Some_2.
        rewrite length_insert. by apply lookup_lt_Some in Htk.
      * by apply (frame_insert n0 pre ls p t tk).
    + by exists None, p, l.
  - simpl labels. rewrite app_nil_r. by exists task, p, l.
Qed.

Lemma for_loop_frame n0 pre e xs : forall ls task p l,
  own_task n0 task p ->
  Frame n0 pre ls p ->
  exists task' p' l',
    for_loop task xs e (mkWorld p l) =
    (match e with Exhausted => inr task' | Raises ex => inl ex end,
     mkWorld p' l')
    /\ own_task n0 task' p'
    /\ Frame n0 pre (ls ++ labels xs) p'.
Proof.
  induction xs as [|x xs IH]; intros ls task p l Hown Hfr.
  - exists task, p, l. simpl. rewrite app_nil_r. by destruct e.
  - destruct (loop_body_frame n0 pre ls task x p l Hown Hfr)
      as (task1 & p1 & l1 & E1 & Hown1 & Hfr1).
    destruct (IH _ _ _ l1 Hown1 Hfr1) as (task2 & p2 & l2 & E2 & Hown2 & Hfr2).
    exists task2, p2, l2. rewrite for_loop_cons, E1.
    split; [exact E2 |]. split; [exact Hown2 |].
    by rewrite labels_cons, (assoc_L (++)).
Qed.

(** [fetch_data] after its loop, by the way the loop ended. *)
Lemma fetch_data_unfold run w :
  fetch_data run w =
  match for_loop None (yielded run) (ending run) (started w) with
  | (inr task, w1) => finally (_finish_task task) progress_stop w1
  | (inl (HandlerException msg), w1) =>
      finally (progress_stop;; error_and_exit msg) progress_stop w1
  | (inl ex, w1) => finally (raise ex) progress_stop w1
  end.
Proof.
  unfold fetch_data, finally, try_except, started.
  unfold mbind at 1, M_bind at 1, bind at 1. unfold progress_start at 1.
  unfold mbind at 1, M_bind at 1, bind at 1.
  destruct (for_loop None (yielded run) (ending run) _) as [[ex|task] w1].
  - by destruct ex.
  - destruct task as [t|]; simpl; [| done].
    unfold progress_update_completed.
    by destruct (Rich.update_completed t 100 (prog w1)).
Qed.

(** X7: [fetch_data] adds tasks to the display and updates the tasks it
    has added, and does nothing else to it: the tasks that were there
    before the pass are unchanged, and the tasks after them carry the
    labels of the yielded tuples, in the order yielded, one task per
    tuple.  This holds however the generator ends. *)
Theorem fetch_data_keeps_display_and_labels run w :
  take (length (Rich.tasks (prog w))) (Rich.tasks (prog (fetch_data run w).2))
  = Rich.tasks (prog w)
  /\ Rich.description <$>
       drop (length (Rich.tasks (prog w)))
            (Rich.tasks (prog (fetch_data run w).2))
     = labels (yielded run).
Proof.
  set (n0 := length (Rich.tasks (prog w))).
  assert (Hgoal : Frame n0 (Rich.tasks (prog w)) (labels (yielded run))
                        (prog (fetch_data run w).2)).
  { destruct (for_loop_frame n0 (Rich.tasks (prog w)) (ending run) (yielded run)
                [] None (Rich.start (prog w)) (obs w ++ [OProgress Rich.Start])
                I (frame_initial (prog w)))
      as (task & p & l & E & Hown & Hfr).
    simpl in Hfr. rewrite fetch_data_unfold. unfold started. rewrite E.
    destruct (ending run) as [|ex].
    - destruct task as [t|]; simpl in Hown.
      + destruct Hown as [Ht [tk Htk]].
        unfold finally, _finish_task, progress_update_completed, progress_stop.
        cbn [prog obs]. rewrite (update_completed_lookup _ _ _ _ Htk).
        cbn [prog obs snd Rich.stop Rich.tasks].
        by apply (frame_insert n0 _ _ p t tk).
      + destruct p. exact Hfr.
    - destruct p. by destruct ex. }
  destruct Hgoal as (H1 & H2 & _). split; [exact H1 |].
  by rewrite fmap_drop.
Qed.

(** ** Client selection and the environment *)

(** X8: [generate_entity_handler] reads one environment variable,
    [SHODAN_API_KEY], and that only when the Shodan flag is set: two
    environments that agree on it give the same result, with the flag
    unset every environment gives the same handler, and whether it
    returns or raises the call changes nothing in the world (it prints
    nothing and does not touch the display). *)
Theorem only_shodan_key_is_read is_ip environ environ' config console w :
  environ !! "SHODAN_API_KEY" = environ' !! "SHODAN_API_KEY" ->
  generate_entity_handler is_ip environ config console w =
  generate_entity_handler is_ip environ' config console w
  /\ (use_shodan config = false ->
      forall env1 env2,
        generate_entity_handler is_ip env1 config console w =
        generate_entity_handler is_ip env2 config console w)
  /\ (generate_entity_handler is_ip environ config console w).2 = w.
Proof.
  intros Hkey. split; [| split].
  - unfold generate_entity_handler, environ_getitem. by rewrite Hkey.
  - intros Hflag env1 env2. unfold generate_entity_handler. by rewrite Hflag.
  - destruct (shodan_key_missing environ config) eqn:Hmiss.
    + by rewrite (generate_entity_handler_raises _ _ _ _ _ Hmiss).
    + destruct (generate_entity_handler_returns is_ip environ config console w
                  Hmiss) as [h Hh].
      by rewrite Hh.
Qed.

Lemma only_shodan_key_is_read_witness :
  generate_entity_handler dotted_quad sample_environ
    (sample_config_shodan "example.com") (mkConsole false) fresh_world =
  generate_entity_handler dotted_quad sample_environ_noise
    (sample_config_shodan "example.com") (mkConsole false) fresh_world.
Proof.
  refine (proj1 (only_shodan_key_is_read dotted_quad sample_environ
            sample_environ_noise (sample_config_shodan "example.com")
            (mkConsole false) fresh_world _)).
  vm_compute. reflexivity.
Defined.

(** ** The run after the fetch pass *)

Lemma count_warnings_zero f ws :
  (forall w, f (OWarning w) = false) -> count f (map OWarning ws) = 0.
Proof.
  intros Hf. induction ws as [|x ws IH]; simpl; [done |]. by rewrite Hf, IH.
Qed.

(** The run from a handler on, when the fetch pass returns. *)
Lemma run_after_fetch is_ip handler_fetch_data environ config h :
  generate_entity_handler is_ip environ config (make_console config)
    (mkWorld (get_progress (make_console config)) []) =
  (inr h, mkWorld (get_progress (make_console config)) []) ->
  ending (handler_fetch_data h) = Exhausted ->
  exists p tr,
    forallb is_progress tr = true
    /\ run_main is_ip handler_fetch_data environ config =
       (view ← generate_view config (make_console config)
                (absorb (handler_fetch_data h) h);
        view_print view (one_column config))
         (mkWorld p ([OProgress Rich.Start] ++ tr ++ [OProgress Rich.Stop] ++
                     map OWarning (warnings (fetched (handler_fetch_data h))))).
Proof.
  intros Eh Hend.
  destruct (fetch_data_exhausted _
              (mkWorld (get_progress (make_console config)) []) Hend)
    as (p & tr & E & Hcl & _).
  exists (Rich.stop p), tr. split; [exact (cl_progress _ _ _ Hcl) |].
  unfold run_main. rewrite main_eq.
  rewrite (bind_inr _ _ _ _ _ Eh), (bind_inr _ _ _ _ _ E).
  rewrite (bind_inr _ _ _ _ _ (print_warnings_trace _ _)).
  rewrite absorb_got. simpl. by rewrite <- (assoc_L (++) tr).
Qed.

(** X9: when the fetch pass has returned and the handler's [vt_info] does
    not fit its class, the run ends with the uncaught
    [WtfisException("Unsupported entity!")] and a failure status; by then
    the display has run and been stopped and the warnings have been
    printed, in that order, and no view is built and no report printed. *)
Theorem mismatch_ends_run_after_warnings
    is_ip handler_fetch_data environ config h :
  generate_entity_handler is_ip environ config (make_console config)
    (mkWorld (get_progress (make_console config)) []) =
  (inr h, mkWorld (get_progress (make_console config)) []) ->
  ending (handler_fetch_data h) = Exhausted ->
  (domain_case (absorb (handler_fetch_data h) h)
   || ip_case (absorb (handler_fetch_data h) h)) = false ->
  exists p tr,
    run_main is_ip handler_fetch_data environ config =
    (inl (WtfisException "Unsupported entity!"),
     mkWorld p ([OProgress Rich.Start] ++ tr ++ [OProgress Rich.Stop] ++
                map OWarning (warnings (fetched (handler_fetch_data h)))))
    /\ forallb is_progress tr = true
    /\ exit_status (run_main is_ip handler_fetch_data environ config).1 = Failure.
Proof.
  intros Eh Hend Hmis.
  destruct (run_after_fetch _ _ _ _ _ Eh Hend) as (p & tr & Hpr & Hrun).
  assert (Hrun' : run_main is_ip handler_fetch_data environ config =
    (inl (WtfisException "Unsupported entity!"),
     mkWorld p ([OProgress Rich.Start] ++ tr ++ [OProgress Rich.Stop] ++
                map OWarning (warnings (fetched (handler_fetch_data h)))))).
  { rewrite Hrun.
    match goal with
    | |- (generate_view ?c ?k ?hh ≫= _) ?ww = _ =>
        destruct (generate_view_cases c k hh ww)
          as [(v & _ & _ & _ & Hor) | (Ev & _)]
    end.
    - rewrite Hor in Hmis. discriminate.
    - by rewrite (bind_inl _ _ _ _ _ Ev). }
  exists p, tr. rewrite Hrun'. done.
Qed.

Lemma mismatch_ends_run_after_warnings_witness :
  exists p tr,
    run_main dotted_quad (fun _ => sample_mismatch_run) ∅
      (sample_config "example.com") =
    (inl (WtfisException "Unsupported entity!"),
     mkWorld p ([OProgress Rich.Start] ++ tr ++ [OProgress Rich.Stop] ++
                map OWarning (warnings (fetched sample_mismatch_run)))).
Proof.
  destruct (mismatch_ends_run_after_warnings dotted_quad
              (fun _ => sample_mismatch_run) ∅ (sample_config "example.com")
              sample_domain_handler) as (p & tr & H & _).
  - reflexivity.
  - reflexivity.
  - reflexivity.
  - exists p, tr. exact H.
Defined.

Lemma count_before_view f tr ws :
  (forall c, f (OProgress c) = false) ->
  (forall w, f (OWarning w) = false) ->
  forallb is_progress tr = true ->
  count f ([OProgress Rich.Start] ++ tr ++ [OProgress Rich.Stop] ++
           map OWarning ws) = 0.
Proof.
  intros Hp Hw Htr. rewrite !count_app. simpl. rewrite !Hp.
  rewrite (count_warnings_zero f ws Hw).
  rewrite (count_zero_of_progress f tr); [done | | done].
  intros [] Ho; try discriminate. apply Hp.
Qed.

(** X10: the report is all or nothing.  A run that ends in success has
    built exactly one view and printed exactly one report; a run that
    ends any other way (a missing Shodan key, an exception of the
    generator of either kind, a handler whose result does not fit its
    class) has built no view and printed no report. *)
Theorem report_all_or_nothing is_ip handler_fetch_data environ config :
  let r := run_main is_ip handler_fetch_data environ config in
  count is_report (obs r.2) = (if r.1 is inr _ then 1 else 0)
  /\ count is_view_built (obs r.2) = (if r.1 is inr _ then 1 else 0).
Proof.
  set (w0 := mkWorld (get_progress (make_console config)) []).
  destruct (shodan_key_missing environ config) eqn:Hmiss.
  { unfold run_main. rewrite main_eq.
    by rewrite (bind_inl _ _ _ _ _
                  (generate_entity_handler_raises is_ip environ config _ w0 Hmiss)). }
  destruct (generate_entity_handler_returns is_ip environ config
              (make_console config) w0 Hmiss) as [h Eh].
  destruct (ending (handler_fetch_data h)) as [|e] eqn:Hend.
  - destruct (run_after_fetch _ _ _ _ _ Eh Hend) as (p & tr & Hpr & Hrun).
    cbv zeta. rewrite Hrun.
    match goal with
    | |- context [(generate_view ?c ?k ?hh ≫= _) ?ww] =>
        destruct (generate_view_cases c k hh ww)
          as [(v & Ev & _) | (Ev & _)]
    end.
    + rewrite (bind_inr _ _ _ _ _ Ev). unfold view_print, emit. cbn [fst snd obs].
      rewrite !count_app.
      rewrite !(count_zero_of_progress _ tr), !count_warnings_zero;
        try done; by intros [].
    + rewrite (bind_inl _ _ _ _ _ Ev). cbn [fst snd obs].
      by rewrite !(count_before_view _ tr).
  - assert (exists ex p tr,
              run_main is_ip handler_fetch_data environ config =
              (inl ex, mkWorld p ([OProgress Rich.Start] ++ tr))
              /\ count is_report tr = 0 /\ count is_view_built tr = 0)
      as (ex & p & tr & Hrun & H1 & H2).
    { unfold run_main. rewrite main_eq. rewrite (bind_inr _ _ _ _ _ Eh).
      destruct (is_handler_exception e) eqn:He.
      - destruct e; try discriminate.
        destruct (fetch_data_handler_exception _ w0 _ Hend)
          as (p & task & tr & E & Hinv & _).
        pose proof (loopinv_progress _ _ _ _ Hinv) as Hpr.
        rewrite (bind_inl _ _ _ _ _ E). eexists _, _, _. split; [reflexivity |].
        rewrite !count_app. simpl.
        rewrite !(count_zero_of_progress _ tr); try done; by intros [].
      - destruct (fetch_data_other_exception _ w0 _ Hend He)
          as (p & task & tr & E & Hinv & _).
        pose proof (loopinv_progress _ _ _ _ Hinv) as Hpr.
        rewrite (bind_inl _ _ _ _ _ E). eexists _, _, _. split; [reflexivity |].
        rewrite !count_app. simpl.
        rewrite !(count_zero_of_progress _ tr); try done; by intros []. }
    cbv zeta. rewrite Hrun. cbn [fst snd obs]. rewrite !count_app, H1, H2. done.
Qed.

(** X11: enough for a run to succeed, and what it then shows.  When the
    handler is built, its generator is exhausted without an exception and
    has left a core result of the entity's kind (an [IpAddress] for an IP
    entity, a [Domain] otherwise), the run ends in success; the view is
    the IP view exactly when the entity is an IP address; it is built on
    the console [main] made, from the fields as the generator left them,
    the unset ones still [None], and a domain view carries
    [config.max_resolutions]; the report is printed last, with
    [config.one_column]. *)
Theorem fitting_result_gives_report
    is_ip handler_fetch_data environ config h d :
  generate_entity_handler is_ip environ config (make_console config)
    (mkWorld (get_progress (make_console config)) []) =
  (inr h, mkWorld (get_progress (make_console config)) []) ->
  ending (handler_fetch_data h) = Exhausted ->
  vt_info (fetched (handler_fetch_data h)) =
  (if is_ip (entity config) then IpAddress d else Domain d) ->
  let view := view_of config (make_console config) (is_ip (entity config))
                      (handler_fetch_data h) d in
  exists p tr,
    run_main is_ip handler_fetch_data environ config =
    (inr tt,
     mkWorld p ([OProgress Rich.Start] ++ tr ++ [OProgress Rich.Stop] ++
                map OWarning (warnings (fetched (handler_fetch_data h))) ++
                [OView view; OReport view (one_column config)]))
    /\ forallb is_progress tr = true
    /\ is_ip_view view = is_ip (entity config)
    /\ is_domain_view view = negb (is_ip (entity config))
    /\ exit_status (run_main is_ip handler_fetch_data environ config).1 = Success.
Proof.
  intros Eh Hend Hvt view.
  destruct (run_after_fetch _ _ _ _ _ Eh Hend) as (p & tr & Hpr & Hrun).
  pose proof (generate_entity_handler_inr _ _ _ _ _ _ _ Eh)
    as (_ & _ & _ & _ & _ & _ & _ & _ & _ & _ & _ & _ & Hh).
  assert (Hrun' : run_main is_ip handler_fetch_data environ config =
    (inr tt,
     mkWorld p ([OProgress Rich.Start] ++ tr ++ [OProgress Rich.Stop] ++
                map OWarning (warnings (fetched (handler_fetch_data h))) ++
                [OView view; OReport view (one_column config)]))).
  { rewrite Hrun. subst view. unfold view_of.
    set (run := handler_fetch_data h) in *. clearbody run.
    rewrite Hh. clear Hh Eh Hrun.
    destruct (is_ip (entity config)); simpl absorb;
      unfold generate_view; rewrite Hvt;
      unfold view_print, emit, mbind, M_bind, bind, mret, M_ret, ret;
      simpl; by rewrite <- !(assoc_L (++)). }
  exists p, tr. rewrite Hrun'. split; [done |]. split; [done |].
  subst view. unfold view_of. by destruct (is_ip (entity config)).
Qed.

Lemma fitting_result_gives_report_witness :
  exists p tr,
    run_main dotted_quad sample_fetch ∅ (sample_config "93.184.216.34") =
    (inr tt,
     mkWorld p ([OProgress Rich.Start] ++ tr ++ [OProgress Rich.Stop] ++
                map OWarning (warnings (fetched (sample_fetch sample_ip_handler)))
                ++ [OView (view_of (sample_config "93.184.216.34")
                             (mkConsole false) true
                             (sample_fetch sample_ip_handler) "93.184.216.34");
                    OReport (view_of (sample_config "93.184.216.34")
                               (mkConsole false) true
                               (sample_fetch sample_ip_handler) "93.184.216.34")
                            false])).
Proof.
  destruct (fitting_result_gives_report dotted_quad sample_fetch ∅
              (sample_config "93.184.216.34") sample_ip_handler "93.184.216.34")
    as (p & tr & H & _).
  - reflexivity.
  - reflexivity.
  - reflexivity.
  - exists p, tr. exact H.
Defined.

(** ** Updates go to the open phase *)

Lemma last_opened_app tr1 : forall cur tr2,
  last_opened cur (tr1 ++ tr2) = last_opened (last_opened cur tr1) tr2.
Proof.
  induction tr1 as [|o tr1 IH]; intros cur tr2; simpl; [done |].
  destruct o as [[]| | | |]; apply IH.
Qed.

Lemma scoped_app tr1 : forall cur tr2,
  scoped cur (tr1 ++ tr2) = scoped cur tr1 && scoped (last_opened cur tr1) tr2.
Proof.
  induction tr1 as [|o tr1 IH]; intros cur tr2; simpl; [done |].
  destruct o as [[]| | | |]; rewrite ?IH, ?andb_assoc; done.
Qed.

Lemma loop_body_scoped base tr p task x :
  Scoped tr p task ->
  exists task' p' ext,
    loop_body task x (mkWorld p (base ++ tr)) =
    (inr task', mkWorld p' (base ++ tr ++ ext))
    /\ Scoped (tr ++ ext) p' task'.
Proof.
  intros (Hlast & Hsc & Hk). unfold Scoped.
  destruct x as [descr adv | n |].
  - destruct task as [t|]; simpl in Hk.
    + destruct Hk as [tk Htk]. eexists _, _, _.
      split; [rewrite (assoc_L (++)); exact (tuple_step_some _ _ _ _ _ _ Htk) |].
      rewrite last_opened_app, scoped_app, Hsc, Hlast. simpl.
      rewrite !bool_decide_eq_true_2 by done.
      split; [done |]. split; [done |].
      rewrite list_lookup_middle by (by rewrite length_insert). by eexists.
    + eexists _, _, _.
      split; [rewrite (assoc_L (++)); exact (tuple_step_none _ _ _ _) |].
      rewrite last_opened_app, scoped_app, Hsc, Hlast. simpl.
      rewrite !bool_decide_eq_true_2 by done.
      split; [done |]. split; [done |].
      rewrite list_lookup_middle by done. by eexists.
  - destruct task as [t|]; simpl in Hk.
    + destruct Hk as [tk Htk]. eexists _, _, _.
      split; [rewrite (assoc_L (++)); exact (int_step _ _ _ _ _ Htk) |].
      rewrite last_opened_app, scoped_app, Hsc, Hlast. simpl.
      rewrite !bool_decide_eq_true_2 by done.
      split; [done |]. split; [done |].
      apply lookup_lt_is_Some_2. rewrite length_insert.
      by apply lookup_lt_Some in Htk.
    + exists None, p, []. rewrite !app_nil_r. done.
  - exists task, p, []. rewrite !app_nil_r. done.
Qed.

Lemma for_loop_scoped base e xs : forall tr p task,
  Scoped tr p task ->
  exists task' p' ext,
    for_loop task xs e (mkWorld p (base ++ tr)) =
    (match e with Exhausted => inr task' | Raises ex => inl ex end,
     mkWorld p' (base ++ tr ++ ext))
    /\ Scoped (tr ++ ext) p' task'.
Proof.
  induction xs as [|x xs IH]; intros tr p task Hs.
  - exists task, p, []. rewrite !app_nil_r. simpl. by destruct e.
  - destruct (loop_body_scoped base tr p task x Hs)
      as (task1 & p1 & ext1 & E1 & Hs1).
    destruct (IH _ _ _ Hs1) as (task2 & p2 & ext2 & E2 & Hs2).
    exists task2, p2, (ext1 ++ ext2). rewrite for_loop_cons, E1.
    rewrite !(assoc_L (++)) in *. split; [exact E2 | exact Hs2].
Qed.

(** X12: every update [fetch_data] makes goes to the task of the latest
    [add_task] call of the pass: no advance and no force-completion ever
    reaches an earlier phase, and none is made before a phase is open.
    This holds for every sequence of yielded objects and however the
    generator ends. *)
Theorem updates_go_to_open_phase run w :
  exists ext,
    obs (fetch_data run w).2 = obs w ++ ext
    /\ scoped None ext = true.
Proof.
  destruct (for_loop_scoped (obs w) (ending run) (yielded run)
              [OProgress Rich.Start] (Rich.start (prog w)) None)
    as (task & p & ext & E & Hlast & Hsc & Hk).
  { by split. }
  rewrite fetch_data_unfold. unfold started. rewrite E.
  destruct (ending run) as [|ex].
  - destruct task as [t|]; simpl in Hk.
    + destruct Hk as [tk Htk].
      exists (([OProgress Rich.Start] ++ ext)
              ++ [OProgress (Rich.UpdateCompleted t 100); OProgress Rich.Stop]).
      split.
      * unfold finally, _finish_task, progress_update_completed, progress_stop.
        cbn [prog obs]. rewrite (update_completed_lookup _ _ _ _ Htk).
        cbn [prog obs snd]. by rewrite <- !(assoc_L (++)).
      * rewrite scoped_app, Hsc, Hlast. simpl.
        by rewrite bool_decide_eq_true_2.
    + exists (([OProgress Rich.Start] ++ ext) ++ [OProgress Rich.Stop]).
      split.
      * unfold finally, _finish_task, progress_stop. simpl.
        by rewrite <- !(assoc_L (++)).
      * by rewrite scoped_app, Hsc.
  - destruct (is_handler_exception ex) eqn:He.
    + destruct ex; try discriminate.
      exists (([OProgress Rich.Start] ++ ext)
              ++ [OProgress Rich.Stop; OError msg; OProgress Rich.Stop]).
      split.
      * unfold finally, progress_stop, error_and_exit, emit, raise,
          mbind, M_bind, bind. simpl. by rewrite <- !(assoc_L (++)).
      * by rewrite scoped_app, Hsc.
    + exists (([OProgress Rich.Start] ++ ext) ++ [OProgress Rich.Stop]).
      split.
      * destruct ex; try discriminate;
          unfold finally, progress_stop, raise; simpl;
          by rewrite <- !(assoc_L (++)).
      * by rewrite scoped_app, Hsc.
Qed.
